(** * Requires-side relation library (database_requires.py): model and properties

    A shallow embedding of [BaseRequires], [DatabaseRequires], [KafkaRequires]
    and [ZookeeperRequires] from
    [lib/charms/data_platform_libs/v0/database_requires.py].

    Modelling conventions.
    - A Python [str] is a [string]; every character is a code point in
      U+0000..U+00FF.
    - A relation databag is a [gmap string string]: a [dict] from [str] to
      [str], as the mock events of the test suite supply it.  (Juju's rule
      that storing an empty string removes the key is not part of the
      model.)  [relation.data] is a [gmap Entity _] keyed by application or
      unit; looking up a key that is absent raises [KeyError].
    - Relation objects are shared with the charm model: an event carries
      the id of its relation, and every read and write goes to the
      relation of that id in [World].  A relation id the model does not
      know raises [ModelError] on access, except in the one loop of the
      source that searches the relations by id.
    - Methods that mutate the model are state transformers over [World];
      a raised exception leaves the mutations made before it in place.
    - Observers of the emitted events are charm code: an emission is
      recorded and nothing more happens.
    - [json.loads] / [json.dumps] are the standard library's: they are
      embedded as an executable decoder and encoder for the JSON grammar
      (CPython's recursion limit on deeply nested texts is not modelled). *)

From Stdlib Require Import ZArith NArith Ascii String List Lia.
From stdpp Require Import base gmap sets list strings.

Set Warnings "-register-all,-clear-no-such-hyp".

Local Open Scope string_scope.
Local Open Scope list_scope.

(** ** Exceptions and results *)

Inductive exn : Type :=
  | JSONDecodeError   (* json.loads on malformed text *)
  | AttributeError
  | KeyError
  | ValueError
  | IndexError
  | RuntimeError
  | RecursionError    (* the decoder out of fuel; never raised, see
                         [loads_no_RecursionError] *)
  | ModelError        (* the charm model knows no relation with that id *)
  | NotLatin1.        (* not a Python exception: the decoded text leaves
                         the modelled alphabet U+0000..U+00FF *)

Inductive result (A : Type) : Type :=
  | Ok (a : A)
  | Raise (e : exn).
Arguments Ok {A} a.
Arguments Raise {A} e.

Global Instance result_bind : MBind result := λ A B k r,
  match r with
  | Ok a => k a
  | Raise e => Raise e
  end.
Global Instance result_ret : MRet result := λ A a, Ok a.

(** ** JSON text *)

Module Json.

Inductive json : Type :=
  | JNull
  | JBool (b : bool)
  | JNum (lexeme : string)         (* int, float, NaN, Infinity, -Infinity *)
  | JStr (s : string)
  | JArr (items : list json)
  | JObj (members : list (string * json)).

Definition chars (s : string) : list ascii := list_ascii_of_string s.
Definition text (cs : list ascii) : string := string_of_list_ascii cs.

Definition dquote : ascii := "034"%char.
Definition backslash : ascii := "092"%char.

Definition code (c : ascii) : N := N_of_ascii c.

(** *** Encoder: [json.dumps] with its defaults ([ensure_ascii=True],
    separators [", "] and [": "]) on a dict of strings. *)

Definition hexdigit (n : N) : ascii :=
  nth (N.to_nat n) (chars "0123456789abcdef") "0"%char.

(* ascii_escape_unichar / S_CHAR of the encoder. *)
Definition escape_char (c : ascii) : list ascii :=
  if Ascii.eqb c dquote then [backslash; dquote]
  else if Ascii.eqb c backslash then [backslash; backslash]
  else if Ascii.eqb c "008"%char then [backslash; "b"%char]
  else if Ascii.eqb c "012"%char then [backslash; "f"%char]
  else if Ascii.eqb c "010"%char then [backslash; "n"%char]
  else if Ascii.eqb c "013"%char then [backslash; "r"%char]
  else if Ascii.eqb c "009"%char then [backslash; "t"%char]
  else if ((32 <=? code c) && (code c <=? 126))%N then [c]
  else [backslash; "u"%char; "0"%char; "0"%char;
        hexdigit (code c / 16); hexdigit (code c mod 16)].

Definition encode_basestring_ascii (s : string) : list ascii :=
  dquote :: flat_map escape_char (chars s) ++ [dquote].

Definition encode_item (kv : string * string) : list ascii :=
  encode_basestring_ascii kv.1 ++ chars ": " ++ encode_basestring_ascii kv.2.

Fixpoint encode_items (kvs : list (string * string)) : list ascii :=
  match kvs with
  | [] => []
  | [kv] => encode_item kv
  | kv :: rest => encode_item kv ++ chars ", " ++ encode_items rest
  end.

(** Members are written in the key order of [map_to_list]; Python writes
    them in insertion order.  Only the decoded mapping is ever used. *)
Definition dumps (d : gmap string string) : string :=
  text ("{"%char :: encode_items (map_to_list d) ++ ["}"%char]).

(** *** Decoder: [json.loads] (scanner of [json.decoder], strict mode). *)

Definition is_ws (c : ascii) : bool :=
  Ascii.eqb c " "%char || Ascii.eqb c "009"%char
  || Ascii.eqb c "010"%char || Ascii.eqb c "013"%char.

Fixpoint skip_ws (s : list ascii) : list ascii :=
  match s with
  | c :: r => if is_ws c then skip_ws r else s
  | [] => []
  end.

Definition hex_val (c : ascii) : option N :=
  let n := code c in
  if ((48 <=? n) && (n <=? 57))%N then Some (n - 48)%N
  else if ((97 <=? n) && (n <=? 102))%N then Some (n - 87)%N
  else if ((65 <=? n) && (n <=? 70))%N then Some (n - 55)%N
  else None.

Definition hex4 (a b c d : ascii) : option N :=
  match hex_val a, hex_val b, hex_val c, hex_val d with
  | Some x, Some y, Some z, Some w => Some (((x * 16 + y) * 16 + z) * 16 + w)%N
  | _, _, _, _ => None
  end.

Definition unescape (e : ascii) : option ascii :=
  if Ascii.eqb e dquote then Some dquote
  else if Ascii.eqb e backslash then Some backslash
  else if Ascii.eqb e "/"%char then Some "/"%char
  else if Ascii.eqb e "b"%char then Some "008"%char
  else if Ascii.eqb e "f"%char then Some "012"%char
  else if Ascii.eqb e "n"%char then Some "010"%char
  else if Ascii.eqb e "r"%char then Some "013"%char
  else if Ascii.eqb e "t"%char then Some "009"%char
  else None.

(* scanstring, entered after the opening quote. *)
Fixpoint scanstring (s : list ascii) : result (list ascii * list ascii) :=
  match s with
  | [] => Raise JSONDecodeError                 (* unterminated string *)
  | c :: r =>
      if Ascii.eqb c dquote then Ok ([], r)
      else if Ascii.eqb c backslash then
        match r with
        | [] => Raise JSONDecodeError
        | e :: r1 =>
            if Ascii.eqb e "u"%char then
              match r1 with
              | h1 :: h2 :: h3 :: h4 :: r2 =>
                  match hex4 h1 h2 h3 h4 with
                  | Some n =>
                      if (n <? 256)%N then
                        '(str, rest) ← scanstring r2 ;
                        Ok (ascii_of_N n :: str, rest)
                      else Raise NotLatin1
                  | None => Raise JSONDecodeError (* invalid \uXXXX *)
                  end
              | _ => Raise JSONDecodeError
              end
            else
              match unescape e with
              | Some c' =>
                  '(str, rest) ← scanstring r1 ;
                  Ok (c' :: str, rest)
              | None => Raise JSONDecodeError     (* invalid \escape *)
              end
        end
      else if (code c <? 32)%N then Raise JSONDecodeError (* control char *)
      else
        '(str, rest) ← scanstring r ;
        Ok (c :: str, rest)
  end.

Definition is_digit (c : ascii) : bool := ((48 <=? code c) && (code c <=? 57))%N.

Fixpoint span_digits (s : list ascii) : list ascii * list ascii :=
  match s with
  | c :: r =>
      if is_digit c then let '(ds, rest) := span_digits r in (c :: ds, rest)
      else ([], s)
  | [] => ([], [])
  end.

(* NUMBER_RE: an optional minus, then 0 or a nonzero digit followed by
   digits; an optional fraction; an optional exponent. *)
Definition scan_int (s : list ascii) : option (list ascii * list ascii) :=
  let '(sign, s1) :=
    match s with
    | c :: r => if Ascii.eqb c "-"%char then ([c], r) else ([], s)
    | [] => ([], s)
    end in
  match s1 with
  | c :: r =>
      if Ascii.eqb c "0"%char then Some (sign ++ [c], r)
      else if is_digit c then
        let '(ds, rest) := span_digits r in Some (sign ++ c :: ds, rest)
      else None
  | [] => None
  end.

Definition scan_frac (s : list ascii) : list ascii * list ascii :=
  match s with
  | c :: r =>
      if Ascii.eqb c "."%char then
        match span_digits r with
        | ([], _) => ([], s)
        | (ds, rest) => (c :: ds, rest)
        end
      else ([], s)
  | [] => ([], s)
  end.

Definition scan_exp (s : list ascii) : list ascii * list ascii :=
  match s with
  | c :: r =>
      if Ascii.eqb c "e"%char || Ascii.eqb c "E"%char then
        let '(sign, r1) :=
          match r with
          | g :: r' =>
              if Ascii.eqb g "-"%char || Ascii.eqb g "+"%char
              then ([g], r') else ([], r)
          | [] => ([], r)
          end in
        match span_digits r1 with
        | ([], _) => ([], s)
        | (ds, rest) => (c :: sign ++ ds, rest)
        end
      else ([], s)
  | [] => ([], s)
  end.

Definition scan_number (s : list ascii) : option (json * list ascii) :=
  match scan_int s with
  | Some (i, r) =>
      let '(f, r1) := scan_frac r in
      let '(e, r2) := scan_exp r1 in
      Some (JNum (text (i ++ f ++ e)), r2)
  | None => None
  end.

Fixpoint strip_prefix (p s : list ascii) : option (list ascii) :=
  match p, s with
  | [], _ => Some s
  | a :: p', b :: s' => if Ascii.eqb a b then strip_prefix p' s' else None
  | _ :: _, [] => None
  end.

Section Containers.
(** The element and member loops of the decoder, over the scanner for
    one value.  [n] bounds the number of iterations by the length of
    the text still to read. *)
Variable scan : list ascii → result (json * list ascii).

Fixpoint parse_elems (n : nat) (s : list ascii)
  : result (list json * list ascii) :=
  match n with
  | O => Raise RecursionError
  | S n' =>
      '(v, r) ← scan s ;
      match skip_ws r with
      | c :: r1 =>
          if Ascii.eqb c "]"%char then Ok ([v], r1)
          else if Ascii.eqb c ","%char then
            '(vs, rest) ← parse_elems n' (skip_ws r1) ;
            Ok (v :: vs, rest)
          else Raise JSONDecodeError
      | [] => Raise JSONDecodeError
      end
  end.

Fixpoint parse_members (n : nat) (s : list ascii)
  : result (list (string * json) * list ascii) :=
  match n with
  | O => Raise RecursionError
  | S n' =>
      match s with
      | q :: r0 =>
          if Ascii.eqb q dquote then
            '(key, r) ← scanstring r0 ;
            match skip_ws r with
            | c :: r1 =>
                if Ascii.eqb c ":"%char then
                  '(v, r2) ← scan (skip_ws r1) ;
                  match skip_ws r2 with
                  | d :: r3 =>
                      if Ascii.eqb d "}"%char then Ok ([(text key, v)], r3)
                      else if Ascii.eqb d ","%char then
                        '(kvs, rest) ← parse_members n' (skip_ws r3) ;
                        Ok ((text key, v) :: kvs, rest)
                      else Raise JSONDecodeError
                  | [] => Raise JSONDecodeError
                  end
                else Raise JSONDecodeError
            | [] => Raise JSONDecodeError
            end
          else Raise JSONDecodeError  (* expecting property name *)
      | [] => Raise JSONDecodeError
      end
  end.
End Containers.

Definition scan_constant (s : list ascii) : option (json * list ascii) :=
  match strip_prefix (chars "null") s with
  | Some r => Some (JNull, r)
  | None =>
  match strip_prefix (chars "true") s with
  | Some r => Some (JBool true, r)
  | None =>
  match strip_prefix (chars "false") s with
  | Some r => Some (JBool false, r)
  | None =>
  match strip_prefix (chars "NaN") s with
  | Some r => Some (JNum "NaN", r)
  | None =>
  match strip_prefix (chars "Infinity") s with
  | Some r => Some (JNum "Infinity", r)
  | None =>
  match strip_prefix (chars "-Infinity") s with
  | Some r => Some (JNum "-Infinity", r)
  | None => None
  end end end end end end.

(* scan_once: one JSON value at the head of [s]. *)
Fixpoint scan_once (fuel : nat) (s : list ascii) : result (json * list ascii) :=
  match fuel with
  | O => Raise RecursionError
  | S f =>
      match s with
      | [] => Raise JSONDecodeError               (* expecting value *)
      | c :: r =>
          if Ascii.eqb c dquote then
            '(str, rest) ← scanstring r ;
            Ok (JStr (text str), rest)
          else if Ascii.eqb c "{"%char then
            match skip_ws r with
            | d :: r1 =>
                if Ascii.eqb d "}"%char then Ok (JObj [], r1)
                else
                  '(kvs, rest) ←
                    parse_members (scan_once f) (S (length r)) (d :: r1) ;
                  Ok (JObj kvs, rest)
            | [] => Raise JSONDecodeError
            end
          else if Ascii.eqb c "["%char then
            match skip_ws r with
            | d :: r1 =>
                if Ascii.eqb d "]"%char then Ok (JArr [], r1)
                else
                  '(vs, rest) ←
                    parse_elems (scan_once f) (S (length r)) (d :: r1) ;
                  Ok (JArr vs, rest)
            | [] => Raise JSONDecodeError
            end
          else
            match scan_constant s with
            | Some vr => Ok vr
            | None =>
                match scan_number s with
                | Some vr => Ok vr
                | None => Raise JSONDecodeError
                end
            end
      end
  end.

(* JSONDecoder.decode: leading and trailing whitespace, no extra data. *)
Definition loads (s : string) : result json :=
  let cs := chars s in
  '(v, r) ← scan_once (S (length cs)) (skip_ws cs) ;
  match skip_ws r with
  | [] => Ok v
  | _ :: _ => Raise JSONDecodeError               (* extra data *)
  end.

(** What the encoder writes for one character, checked against the
    decoder's tables: the character itself, a two-character escape, or
    a [\u00XX] escape. *)
Definition escape_shape (c : ascii) : bool :=
  match escape_char c with
  | [x] =>
      Ascii.eqb x c && negb (Ascii.eqb x dquote)
      && negb (Ascii.eqb x backslash) && negb (code x <? 32)%N
  | [b; e] =>
      Ascii.eqb b backslash && negb (Ascii.eqb e "u"%char)
      && match unescape e with
         | Some c' => Ascii.eqb c' c
         | None => false
         end
  | [b; u; h1; h2; h3; h4] =>
      Ascii.eqb b backslash && Ascii.eqb u "u"%char
      && match hex4 h1 h2 h3 h4 with
         | Some n => (n <? 256)%N && Ascii.eqb (ascii_of_N n) c
         | None => false
         end
  | _ => false
  end.

(** [scan] on [s] does not run out of fuel, and what it returns is
    shorter than [s]. *)
Definition consumes {A} (scan : list ascii → result (A * list ascii))
    (s : list ascii) : Prop :=
  scan s ≠ Raise RecursionError
  ∧ ∀ v r, scan s = Ok (v, r) → (length r < length s)%nat.

(** The member an item of a dict of strings decodes to. *)
Definition jstr_item (kv : string * string) : string * json :=
  (kv.1, JStr kv.2).

End Json.

Import Json.

(** Test texts are written with ['] for the double quote. *)
Definition dq (s : string) : string :=
  text (map (λ c, if Ascii.eqb c "'"%char then dquote else c) (chars s)).

(** ** The charm model: relations, databags, leadership, events *)

(** Keys of [relation.data]: an application or a unit, by name. *)
Inductive Entity : Type :=
  | Application (name : string)
  | Unit (name : string).

Global Instance Entity_eq_dec : EqDecision Entity.
Proof. solve_decision. Defined.

Global Instance Entity_countable : Countable Entity.
Proof.
  refine (inj_countable'
    (λ e, match e with Application n => inl n | Unit n => inr n end)
    (λ s, match s with inl n => Application n | inr n => Unit n end) _).
  by intros [].
Defined.

(** One relation of the charm: its id and [relation.data]. *)
Record Relation : Type := mkRelation {
  rel_id : Z;
  rel_data : gmap Entity (gmap string string);
}.

(** An event fired on [self.on]: the attribute it was fired through and
    the payload [emit(event.relation, app=event.app, unit=event.unit)]. *)
Record Emission : Type := mkEmission {
  em_name : string;
  em_relation : Z;
  em_app : string;
  em_unit : option string;
}.

Global Instance Emission_eq_dec : EqDecision Emission.
Proof. solve_decision. Defined.

(** What the library reads and writes.
    - [relations]: [self.charm.model.relations[self.relation_name]];
    - [is_leader]: [self.local_unit.is_leader()];
    - [defined_events]: the events added to the class of [self.on] by
      [define_event], next to the ones the class declares;
    - [emitted]: the events fired so far, oldest first. *)
Record World : Type := mkWorld {
  relations : list Relation;
  is_leader : bool;
  defined_events : gset string;
  emitted : list Emission;
}.

Definition set_relations (rs : list Relation) (w : World) : World :=
  mkWorld rs (is_leader w) (defined_events w) (emitted w).

(** A method body: runs on a world, leaves a world and returns or raises. *)
Definition M (A : Type) : Type := World → World * result A.

Global Instance M_ret : MRet M := λ A a w, (w, Ok a).
Global Instance M_bind : MBind M := λ A B k m w,
  match m w with
  | (w', Ok a) => k a w'
  | (w', Raise e) => (w', Raise e)
  end.

Definition raise {A} (e : exn) : M A := λ w, (w, Raise e).
Definition lift {A} (r : result A) : M A := λ w, (w, r).
Definition gets {A} (f : World → A) : M A := λ w, (w, Ok (f w)).
Definition modify (f : World → World) : M () := λ w, (f w, Ok ()).

(** The relation event a handler receives.  [relation] is the id of
    [event.relation], an object of the model. *)
Module RelationEvent.
Record t : Type := mk {
  relation : Z;
  app : string;
  unit : option string;
}.
End RelationEvent.
Abbreviation RelationEvent := RelationEvent.t.

(** *** Python values *)

(** Truth value of [d.get(key)]: [None] and the empty string are false. *)
Definition truthy (v : option string) : bool :=
  match v with
  | Some s => negb (String.eqb s "")
  | None => false
  end.

(** Truth value of an optional list: [None] and [[]] are false. *)
Definition truthy_list (l : option (list string)) : bool :=
  match l with
  | Some (_ :: _) => true
  | _ => false
  end.

(** [bag.update(d)]. *)
Definition dict_update (d bag : gmap string string) : gmap string string :=
  d ∪ bag.

(** The dict built by the decoder from the members of an object: a later
    member with the same key overrides an earlier one. *)
Definition py_dict (members : list (string * json)) : gmap string json :=
  list_to_map (reverse members).

(** [old_data.keys()] and [old_data[key]] need a dict. *)
Definition as_dict (j : json) : result (gmap string json) :=
  match j with
  | JObj members => Ok (py_dict members)
  | _ => Raise AttributeError
  end.

(** [old != new] for a decoded value and a [str]: only an equal JSON
    string compares equal to a string. *)
Definition py_ne (old : json) (new : string) : bool :=
  match old with
  | JStr s => negb (String.eqb s new)
  | _ => true
  end.

(** [old_data[key] != new_data[key]] for a key of both dicts. *)
Definition value_differs (old_data : gmap string json)
    (new_data : gmap string string) (key : string) : bool :=
  match old_data !! key, new_data !! key with
  | Some old, Some new => py_ne old new
  | _, _ => false
  end.

(** [l.remove(x)]: drops the first occurrence, [ValueError] if none. *)
Fixpoint list_remove (x : string) (l : list string) : result (list string) :=
  match l with
  | [] => Raise ValueError
  | y :: l' =>
      if decide (x = y) then Ok l'
      else l'' ← list_remove x l' ; Ok (y :: l'')
  end.

(** [l[0]]. *)
Definition list_first (l : list string) : result string :=
  match l with
  | x :: _ => Ok x
  | [] => Raise IndexError
  end.

(** *** Access to the model *)

Definition find_relation (id : Z) (rs : list Relation) : option Relation :=
  List.find (λ r, bool_decide (rel_id r = id)) rs.

Fixpoint alter_relation (id : Z) (f : Relation → Relation)
    (rs : list Relation) : list Relation :=
  match rs with
  | [] => []
  | r :: rs' =>
      if bool_decide (rel_id r = id) then f r :: rs'
      else r :: alter_relation id f rs'
  end.

(** [self.charm.model.get_relation(self.relation_name, relation_id)],
    for a relation the model knows. *)
Definition get_relation (relation_id : Z) : M Relation := λ w,
  match find_relation relation_id (relations w) with
  | Some r => (w, Ok r)
  | None => (w, Raise ModelError)
  end.

(** [relation.data[entity]] *)
Definition relation_data (relation_id : Z) (entity : Entity)
  : M (gmap string string) :=
  r ← get_relation relation_id ;
  match rel_data r !! entity with
  | Some bag => mret bag
  | None => raise KeyError
  end.

(** The world in which [entity]'s databag of the relation is [bag]. *)
Definition store_bag (relation_id : Z) (entity : Entity)
    (bag : gmap string string) (w : World) : World :=
  set_relations
    (alter_relation relation_id
       (λ r, mkRelation (rel_id r) (<[entity := bag]> (rel_data r)))
       (relations w)) w.

(** [relation.data[entity].update(d)] *)
Definition relation_data_update (relation_id : Z) (entity : Entity)
    (d : gmap string string) : M () :=
  bag ← relation_data relation_id entity ;
  modify (store_bag relation_id entity (dict_update d bag)).

(** [self.on.<name>.emit(event.relation, app=event.app, unit=event.unit)].
    Observers are charm code and are not run here. *)
Definition emission (name : string) (event : RelationEvent) : Emission :=
  mkEmission name (RelationEvent.relation event) (RelationEvent.app event)
    (RelationEvent.unit event).

(** The world in which the class of [self.on] also has [event_kind]. *)
Definition add_event (event_kind : string) (w : World) : World :=
  mkWorld (relations w) (is_leader w)
    ({[ event_kind ]} ∪ defined_events w) (emitted w).

Definition record_emission (e : Emission) (w : World) : World :=
  mkWorld (relations w) (is_leader w) (defined_events w) (emitted w ++ [e]).

Definition emit (name : string) (event : RelationEvent) : M () :=
  modify (record_emission (emission name event)).

Record Diff : Type := mkDiff {
  added : gset string;
  changed : gset string;
  deleted : gset string;
}.

(** [relation.data[relation.app]].  [relation_app] gives the [app]
    attribute of the relation with a given id: its remote application,
    [None] while it is not known.  (The record [Relation] carries the id
    and the data of a relation.) *)
Definition relation_app_data (relation_app : Z → option string)
    (r : Relation) : result (gmap string string) :=
  match relation_app (rel_id r) with
  | Some remote =>
      match rel_data r !! Application remote with
      | Some bag => Ok bag
      | None => Raise KeyError
      end
  | None => Raise KeyError
  end.

(** ** BaseRequires *)

(** What the constructors read from the charm.  [meta_requires] maps the
    relations declared under [requires] to their [limit];
    [meta_other_relations] are the relations declared under [provides]
    and [peers]. *)
Record Charm : Type := mkCharm {
  charm_app : string;                       (* charm.model.app *)
  charm_unit : string;                      (* charm.unit *)
  meta_requires : gmap string (option Z);
  meta_other_relations : gset string;
}.

Module BaseRequires.

Record t : Type := mk {
  local_app : string;                 (* self.charm.model.app *)
  local_unit : string;                (* self.charm.unit *)
  relation_name : string;
  extra_user_roles : option string;
}.

(** [self.charm.on[relation_name].relation_joined]: the charm has the
    relation events of the relations its metadata declares, and of no
    other name. *)
Definition has_relation_events (charm : Charm) (relation_name : string) : bool :=
  bool_decide (relation_name ∈ dom (meta_requires charm))
  || bool_decide (relation_name ∈ meta_other_relations charm).

Definition __init__ (charm : Charm) (relation_name : string)
    (extra_user_roles : option string) : M t :=
  if has_relation_events charm relation_name then
    mret (mk (charm_app charm) (charm_unit charm) relation_name
            extra_user_roles)
  else raise AttributeError.

Definition _update_relation_data (self : t) (relation_id : Z)
    (data : gmap string string) : M () :=
  leader ← gets is_leader ;
  if leader : bool then
    relation_data_update relation_id (Application (local_app self)) data
  else mret ().

Definition _diff (self : t) (event : RelationEvent) : M Diff :=
  (* old data, from the data key of the local unit databag *)
  local ← relation_data (RelationEvent.relation event) (Unit (local_unit self)) ;
  old_json ← lift (loads (default "{}" (local !! "data"))) ;
  (* new data, from the databag of the event's application *)
  remote ← relation_data (RelationEvent.relation event) (Application (RelationEvent.app event)) ;
  let new_data := filter (λ kv, kv.1 ≠ "data") remote in
  old_data ← lift (as_dict old_json) ;
  let added := dom new_data ∖ dom old_data in
  let deleted := dom old_data ∖ dom new_data in
  let changed :=
    filter (λ key, value_differs old_data new_data key)
           (dom old_data ∩ dom new_data) in
  relation_data_update (RelationEvent.relation event) (Unit (local_unit self))
    {[ "data" := dumps new_data ]} ;;
  mret (mkDiff added changed deleted).

(** The property [self.relations]. *)
Definition relations (self : t) : M (list Relation) := gets relations.

(** The loop of [fetch_relation_data] over the relations, filling [data]. *)
Fixpoint fetch_loop (relation_app : Z → option string)
    (rels : list Relation) (data : gmap Z (gmap string string))
  : result (gmap Z (gmap string string)) :=
  match rels with
  | [] => Ok data
  | relation :: rest =>
      bag ← relation_app_data relation_app relation ;
      fetch_loop relation_app rest
        (<[rel_id relation := filter (λ kv, kv.1 ≠ "data") bag]> data)
  end.

Definition fetch_relation_data (relation_app : Z → option string) (self : t)
  : M (gmap Z (gmap string string)) :=
  rels ← relations self ;
  lift (fetch_loop relation_app rels ∅).

End BaseRequires.

(** ** DatabaseRequires *)

Module DatabaseRequires.

Record t : Type := mk {
  base : BaseRequires.t;
  database : string;
  relations_aliases : option (list string);
}.

Definition local_unit (self : t) : string := BaseRequires.local_unit (base self).

(** The events [DatabaseEvents] declares.  No other attribute of the
    class has a name of the form [<alias>_<event>] for these events. *)
Definition static_events : list string :=
  ["database_created"; "endpoints_changed"; "read_only_endpoints_changed"].

(** [hasattr(self.on, name)] *)
Definition has_event (w : World) (name : string) : bool :=
  bool_decide (name ∈ static_events) || bool_decide (name ∈ defined_events w).

Section Construction.
(** [str.isidentifier] of the Python runtime. *)
Variable isidentifier : string → bool.

(** [self.on.define_event(event_kind, ...)] of the ops framework:
    the name must be an identifier and not yet an attribute of the class. *)
Definition define_event (event_kind : string) : M () :=
  if negb (isidentifier event_kind) then raise RuntimeError
  else
    present ← gets (λ w, has_event w event_kind) ;
    if present : bool then raise RuntimeError
    else modify (add_event event_kind).

Fixpoint define_alias_events (aliases : list string) : M () :=
  match aliases with
  | [] => mret ()
  | relation_alias :: rest =>
      define_event (relation_alias +:+ "_database_created") ;;
      define_event (relation_alias +:+ "_endpoints_changed") ;;
      define_event (relation_alias +:+ "_read_only_endpoints_changed") ;;
      define_alias_events rest
  end.

Definition __init__ (charm : Charm) (relation_name database_name : string)
    (extra_user_roles : option string)
    (relations_aliases : option (list string)) : M t :=
  super ← BaseRequires.__init__ charm relation_name extra_user_roles ;
  let self := mk super database_name relations_aliases in
  if truthy_list relations_aliases then
    match meta_requires charm !! relation_name with
    | None => raise KeyError
    | Some relation_connection_limit =>
        let aliases := default [] relations_aliases in
        if bool_decide (Some (Z.of_nat (length aliases))
                        ≠ relation_connection_limit)
        then raise ValueError
        else define_alias_events aliases ;; mret self
    end
  else mret self.
End Construction.

(** The loop over the relations: every alias already persisted is
    removed from the copy of the configured list. *)
Fixpoint remove_assigned (lu : string) (rels : list Relation)
    (available_aliases : list string) : result (list string) :=
  match rels with
  | [] => Ok available_aliases
  | r :: rest =>
      match rel_data r !! Unit lu with
      | None => Raise KeyError
      | Some bag =>
          let alias := bag !! "alias" in
          if truthy alias then
            available ← list_remove (default "" alias) available_aliases ;
            remove_assigned lu rest available
          else remove_assigned lu rest available_aliases
      end
  end.

Definition _assign_relation_alias (self : t) (relation_id : Z) : M () :=
  (* If no aliases were provided, return immediately. *)
  if negb (truthy_list (relations_aliases self)) then mret ()
  else
    (* Return if an alias was already assigned to this relation. *)
    bag ← relation_data relation_id (Unit (local_unit self)) ;
    if truthy (bag !! "alias") then mret ()
    else
      (* The aliases that were not assigned to any relation. *)
      rels ← gets relations ;
      available_aliases ←
        lift (remove_assigned (local_unit self) rels
                (default [] (relations_aliases self))) ;
      (* Set the alias in the unit databag of the relation. *)
      first ← lift (list_first available_aliases) ;
      relation_data_update relation_id (Unit (local_unit self))
        {[ "alias" := first ]}.

Definition _get_relation_alias (self : t) (relation_id : Z)
  : M (option string) :=
  rels ← gets relations ;
  match find_relation relation_id rels with
  | Some r =>
      match rel_data r !! Unit (local_unit self) with
      | Some bag => mret (bag !! "alias")
      | None => raise KeyError
      end
  | None => mret None
  end.

(** [getattr(self.on, name).emit(...)] for an event added at run time. *)
Definition emit_defined (name : string) (event : RelationEvent) : M () :=
  present ← gets (λ w, has_event w name) ;
  if present : bool then emit name event
  else raise AttributeError.

Definition _emit_aliased_event (self : t) (event : RelationEvent)
    (event_name : string) : M () :=
  alias ← _get_relation_alias self (RelationEvent.relation event) ;
  if truthy alias then
    emit_defined (default "" alias +:+ "_" +:+ event_name) event
  else mret ().

Definition _on_relation_joined_event (self : t) (event : RelationEvent)
  : M () :=
  _assign_relation_alias self (RelationEvent.relation event) ;;
  if truthy (BaseRequires.extra_user_roles (base self)) then
    BaseRequires._update_relation_data (base self) (RelationEvent.relation event)
      {[ "database" := database self;
         "extra-user-roles" :=
           default "" (BaseRequires.extra_user_roles (base self)) ]}
  else
    BaseRequires._update_relation_data (base self) (RelationEvent.relation event)
      {[ "database" := database self ]}.

Definition _on_relation_changed_event (self : t) (event : RelationEvent)
  : M () :=
  diff ← BaseRequires._diff (base self) event ;
  if bool_decide ("username" ∈ added diff)
     && bool_decide ("password" ∈ added diff) then
    emit "database_created" event ;;
    _emit_aliased_event self event "database_created"
  else if bool_decide ("endpoints" ∈ added diff)
          || bool_decide ("endpoints" ∈ changed diff) then
    emit "endpoints_changed" event ;;
    _emit_aliased_event self event "endpoints_changed"
  else if bool_decide ("read-only-endpoints" ∈ added diff)
          || bool_decide ("read-only-endpoints" ∈ changed diff) then
    emit "read_only_endpoints_changed" event ;;
    _emit_aliased_event self event "read_only_endpoints_changed"
  else mret ().

End DatabaseRequires.

(** ** KafkaRequires *)

Module KafkaRequires.

Record t : Type := mk {
  base : BaseRequires.t;
  topic : string;
}.

Definition _on_relation_joined_event (self : t) (event : RelationEvent)
  : M () :=
  BaseRequires._update_relation_data (base self) (RelationEvent.relation event)
    (match BaseRequires.extra_user_roles (base self) with
     | Some roles => {[ "topic" := topic self; "extra-user-roles" := roles ]}
     | None => {[ "topic" := topic self ]}
     end).

Definition _on_relation_changed_event (self : t) (event : RelationEvent)
  : M () :=
  diff ← BaseRequires._diff (base self) event ;
  if bool_decide ("username" ∈ added diff)
     && bool_decide ("password" ∈ added diff) then
    emit "topic_created" event
  else if bool_decide ("endpoints" ∈ added diff)
          || bool_decide ("endpoints" ∈ changed diff) then
    emit "bootstrap_server_changed" event
  else if bool_decide ("username" ∈ changed diff)
          || bool_decide ("password" ∈ changed diff) then
    emit "credentials_changed" event
  else mret ().

End KafkaRequires.

(** ** ZookeeperRequires *)

Module ZookeeperRequires.

Record t : Type := mk {
  base : BaseRequires.t;
  chroot : string;
}.

Definition _on_relation_joined_event (self : t) (event : RelationEvent)
  : M () :=
  BaseRequires._update_relation_data (base self) (RelationEvent.relation event)
    (match BaseRequires.extra_user_roles (base self) with
     | Some roles => {[ "chroot" := chroot self; "extra-user-roles" := roles ]}
     | None => {[ "topic" := chroot self ]}
     end).

Definition _on_relation_changed_event (self : t) (event : RelationEvent)
  : M () :=
  diff ← BaseRequires._diff (base self) event ;
  if bool_decide ("username" ∈ added diff)
     && bool_decide ("password" ∈ added diff) then
    emit "chroot_created" event
  else if bool_decide ("endpoints" ∈ added diff)
          || bool_decide ("endpoints" ∈ changed diff) then
    emit "endpoints_changed" event
  else if bool_decide ("username" ∈ changed diff)
          || bool_decide ("password" ∈ changed diff) then
    emit "credentials_changed" event
  else mret ().

End ZookeeperRequires.

(** ** The fields of the emitted events *)

(** [self.relation.data[self.relation.app].get(key)] on an emitted event. *)
Definition event_field (relation_app : Z → option string) (key : string)
    (e : Emission) : M (option string) :=
  r ← get_relation (em_relation e) ;
  bag ← lift (relation_app_data relation_app r) ;
  mret (bag !! key).

Module BaseEvent.
Definition username (relation_app : Z → option string) :=
  event_field relation_app "username".
Definition password (relation_app : Z → option string) :=
  event_field relation_app "password".
Definition tls (relation_app : Z → option string) :=
  event_field relation_app "tls".
Definition tls_ca (relation_app : Z → option string) :=
  event_field relation_app "tls-ca".
End BaseEvent.

Module DatabaseEvent.
Definition endpoints (relation_app : Z → option string) :=
  event_field relation_app "endpoints".
Definition read_only_endpoints (relation_app : Z → option string) :=
  event_field relation_app "read-only-endpoints".
Definition replset (relation_app : Z → option string) :=
  event_field relation_app "replset".
Definition uris (relation_app : Z → option string) :=
  event_field relation_app "uris".
Definition version (relation_app : Z → option string) :=
  event_field relation_app "version".
End DatabaseEvent.

Module KafkaEvent.
Definition bootstrap_server (relation_app : Z → option string) :=
  event_field relation_app "endpoints".
Definition consumer_group_prefix (relation_app : Z → option string) :=
  event_field relation_app "consumer-group-prefix".
Definition zookeeper_uris (relation_app : Z → option string) :=
  event_field relation_app "zookeeper-uris".
End KafkaEvent.

Module ZookeeperEvent.
Definition endpoints (relation_app : Z → option string) :=
  event_field relation_app "endpoints".
End ZookeeperEvent.

(** ** Vocabulary of the statements *)

(** The alias persisted for a relation: the non-empty [alias] value of
    the local unit's databag. *)
Definition persisted_alias (lu : string) (r : Relation) : option string :=
  match rel_data r !! Unit lu with
  | Some bag => if truthy (bag !! "alias") then bag !! "alias" else None
  | None => None
  end.

(** The aliases persisted by the relations, in the order of the model. *)
Definition assigned_aliases (lu : string) (rels : list Relation) : list string :=
  omap (persisted_alias lu) rels.

(** The first alias of the pool, in pool order, that no relation claims. *)
Definition first_free (pool assigned : list string) : option string :=
  head (filter (λ a, a ∉ assigned) pool).

(** The event classifier of the specification (rules 1 to 3 and 5 of its
    section 4.3, for the generic database adapter): the one kind a diff
    fires, if any, in priority order. *)
Definition spec_classify (d : Diff) : option string :=
  if bool_decide ("username" ∈ added d ∧ "password" ∈ added d)
  then Some "database_created"
  else if bool_decide ("endpoints" ∈ added d ∨ "endpoints" ∈ changed d)
  then Some "endpoints_changed"
  else if bool_decide ("read-only-endpoints" ∈ added d
                       ∨ "read-only-endpoints" ∈ changed d)
  then Some "read_only_endpoints_changed"
  else None.

(** The alias persisted for the relation [id] in the world [w], if the
    model has the relation. *)
Definition relation_alias (lu : string) (id : Z) (w : World) : option string :=
  match find_relation id (relations w) with
  | Some r => persisted_alias lu r
  | None => None
  end.



(** ** Concrete scenarios, after tests/unit/test_data_interfaces.py *)

Module Scenario.

Definition requirer : BaseRequires.t :=
  BaseRequires.mk "application" "application/0" "database"
    (Some "CREATEDB,CREATEROLE").

Definition credentials : gmap string string :=
  {[ "username" := "test-username"; "password" := "test-password" ]}.

(** A relation with the remote application [remote_app]. *)
Definition relation_with (id : Z) (remote_app : string)
    (remote local_unit_bag : gmap string string) : Relation :=
  mkRelation id
    {[ Application remote_app := remote;
       Unit "application/0" := local_unit_bag;
       Application "application" := ∅ ]}.

Definition world_of (rels : list Relation) (leader : bool) : World :=
  mkWorld rels leader ∅ [].

Definition changed_event : RelationEvent :=
  RelationEvent.mk 1 "database" (Some "database/0").

(** [test_diff]: credentials published, no baseline yet. *)
Definition w_fresh : World :=
  world_of [relation_with 1 "database" credentials ∅] true.

(** The same relation with a baseline that is not JSON. *)
Definition w_corrupt : World :=
  world_of [relation_with 1 "database" credentials {[ "data" := "not json" ]}]
    true.

(** Two relations, neither with an alias yet. *)
Definition w_two_relations : World :=
  world_of [relation_with 1 "database" ∅ ∅;
            relation_with 2 "another-database" ∅ ∅] true.

(** The metadata of the test charm: [database] with limit 2, [kafka]
    without a limit. *)
Definition charm : Charm :=
  mkCharm "application" "application/0"
    {[ "database" := Some 2%Z; "kafka" := None ]} ∅.

Definition zookeeper_without_roles : ZookeeperRequires.t :=
  ZookeeperRequires.mk
    (BaseRequires.mk "application" "application/0" "zookeeper" None)
    "/myapp".

Definition database_requirer : DatabaseRequires.t :=
  DatabaseRequires.mk requirer "data_platform" (Some ["cluster1"; "cluster2"]).

(** The events [__init__] adds for the aliases [cluster1], [cluster2]. *)
Definition cluster_events : gset string :=
  {[ "cluster1_database_created"; "cluster1_endpoints_changed";
     "cluster1_read_only_endpoints_changed";
     "cluster2_database_created"; "cluster2_endpoints_changed";
     "cluster2_read_only_endpoints_changed" ]}.

(** [test_database_events]: relation 1 has the alias [cluster1]; the
    remote application publishes credentials and endpoints at once. *)
Definition w_cluster1 : World :=
  mkWorld
    [relation_with 1 "database"
       {[ "username" := "test-username"; "password" := "test-password";
          "endpoints" := "host1:port"; "read-only-endpoints" := "host2:port" ]}
       {[ "alias" := "cluster1" ]}]
    true cluster_events [].

(** Relation 1 holds [cluster1]; relation 2 has no alias yet. *)
Definition w_second_unassigned : World :=
  world_of [relation_with 1 "database" ∅ {[ "alias" := "cluster1" ]};
            relation_with 2 "another-database" ∅ ∅] true.

(** The second step of [test_database_events]: both endpoint fields of
    the remote application change. *)
Definition endpoints_update (w : World) : World :=
  store_bag 1 (Application "database")
    {[ "username" := "test-username"; "password" := "test-password";
       "endpoints" := "host1:port,host3:port";
       "read-only-endpoints" := "host2:port,host4:port" ]} w.

Definition joined_event : RelationEvent :=
  RelationEvent.mk 1 "database" (Some "database/0").

(** A requirer constructed without aliases: no alias event is defined. *)
Definition requirer_without_aliases : DatabaseRequires.t :=
  DatabaseRequires.mk requirer "data_platform" None.

(** The databag still holds the alias [cluster1] of an earlier
    configuration; the credentials are published. *)
Definition w_alias_without_events : World :=
  world_of [relation_with 1 "database" credentials {[ "alias" := "cluster1" ]}]
    true.



End Scenario.

(** ** Further scenarios *)

Module MoreScenarios.

(** What the remote application publishes in [Scenario.w_cluster1], and
    after [Scenario.endpoints_update]. *)
Definition published : gmap string string :=
  {[ "username" := "test-username"; "password" := "test-password";
     "endpoints" := "host1:port"; "read-only-endpoints" := "host2:port" ]}.

Definition published_update : gmap string string :=
  {[ "username" := "test-username"; "password" := "test-password";
     "endpoints" := "host1:port,host3:port";
     "read-only-endpoints" := "host2:port,host4:port" ]}.

(** A baseline that is JSON but not an object. *)
Definition w_list_baseline : World :=
  Scenario.world_of
    [Scenario.relation_with 1 "database" Scenario.credentials
       {[ "data" := "[]" ]}] true.

(** The remote application of every relation in the scenarios. *)
Definition relation_app (id : Z) : option string :=
  if bool_decide (id = 1%Z) then Some "database"
  else if bool_decide (id = 2%Z) then Some "another-database"
  else None.

(** A relation whose remote application is not known. *)
Definition w_unknown_app : World :=
  Scenario.world_of [Scenario.relation_with 3 "database" ∅ ∅] true.

(** The remote application has published the username only. *)
Definition w_username_only : World :=
  Scenario.world_of
    [Scenario.relation_with 1 "database"
       {[ "username" := "test-username" ]} ∅] true.

Definition kafka_requirer : KafkaRequires.t :=
  KafkaRequires.mk Scenario.requirer "data_platform".

Definition zookeeper_requirer : ZookeeperRequires.t :=
  ZookeeperRequires.mk Scenario.requirer "/myapp".

(** Both aliases are taken and a third relation has none. *)
Definition w_exhausted : World :=
  Scenario.world_of
    [Scenario.relation_with 1 "database" ∅ {[ "alias" := "cluster1" ]};
     Scenario.relation_with 2 "another-database" ∅ {[ "alias" := "cluster2" ]};
     Scenario.relation_with 3 "third-database" ∅ ∅] true.

End MoreScenarios.

(** ** The decoder on concrete texts *)

Example loads_ex1 : loads "{}" = Ok (JObj []).
Proof. reflexivity. Qed.

Example loads_ex2 :
  loads (dq "{ 'a' : 'xA\n\u00e9', 'b': [1, -2.5e3, null, true] }")
  = Ok (JObj [("a", JStr (text (chars "xA" ++ ["010"%char; "233"%char])));
              ("b", JArr [JNum "1"; JNum "-2.5e3"; JNull; JBool true])]).
Proof. vm_compute. reflexivity. Qed.

Example loads_ex3 : loads "not json" = Raise JSONDecodeError.
Proof. reflexivity. Qed.

Example loads_ex4 : loads (dq "{'a': 'b',}") = Raise JSONDecodeError.
Proof. reflexivity. Qed.

Example loads_ex5 : loads (dq "'\u0100'") = Raise NotLatin1.
Proof. reflexivity. Qed.

Example dumps_ex1 :
  dumps {[ "username" := "u" ]} = dq "{'username': 'u'}".
Proof. vm_compute. reflexivity. Qed.

Example dumps_ex2 :
  dumps {[ "username" := "u"; "password" := text ["010"%char; "233"%char; dquote] ]}
  = dq "{'username': 'u', 'password': '\n\u00e9\''}".
Proof. vm_compute. reflexivity. Qed.

(** ** The decoder reads back what the encoder writes *)

Module JsonFacts.

Lemma text_chars (s : string) : text (chars s) = s.
Proof. apply string_of_list_ascii_of_string. Qed.

Lemma chars_text (cs : list ascii) : chars (text cs) = cs.
Proof. apply list_ascii_of_string_of_list_ascii. Qed.

Lemma escape_shape_ok (c : ascii) : escape_shape c = true.
Proof.
  destruct c as [b0 b1 b2 b3 b4 b5 b6 b7].
  destruct b0, b1, b2, b3, b4, b5, b6, b7; vm_compute; reflexivity.
Qed.

Lemma scanstring_cons (c : ascii) (r : list ascii) :
  scanstring (c :: r)
  = if Ascii.eqb c dquote then Ok ([], r)
    else if Ascii.eqb c backslash then
      match r with
      | [] => Raise JSONDecodeError
      | e :: r1 =>
          if Ascii.eqb e "u"%char then
            match r1 with
            | h1 :: h2 :: h3 :: h4 :: r2 =>
                match hex4 h1 h2 h3 h4 with
                | Some n =>
                    if (n <? 256)%N then
                      '(str, rest) ← scanstring r2 ;
                      Ok (ascii_of_N n :: str, rest)
                    else Raise NotLatin1
                | None => Raise JSONDecodeError
                end
            | _ => Raise JSONDecodeError
            end
          else
            match unescape e with
            | Some c' =>
                '(str, rest) ← scanstring r1 ;
                Ok (c' :: str, rest)
            | None => Raise JSONDecodeError
            end
      end
    else if (code c <? 32)%N then Raise JSONDecodeError
    else '(str, rest) ← scanstring r ; Ok (c :: str, rest).
Proof. reflexivity. Qed.

Ltac split_andb :=
  repeat match goal with
    | H : _ && _ = true |- _ => apply andb_prop in H; destruct H
    | H : negb _ = true |- _ => apply negb_true_iff in H
    | H : Ascii.eqb _ _ = true |- _ => apply Ascii.eqb_eq in H
    end.

(** One escaped character is read back as that character. *)
Lemma scanstring_escape_char (c : ascii) (tl : list ascii) :
  scanstring (escape_char c ++ tl)
  = '(str, rest) ← scanstring tl ; Ok (c :: str, rest).
Proof.
  pose proof (escape_shape_ok c) as H. unfold escape_shape in H.
  destruct (escape_char c) as [|x [|e [|h1 [|h2 [|h3 [|h4 [|? ?]]]]]]];
    try discriminate.
  - split_andb. subst x. cbn [app]. rewrite scanstring_cons.
    repeat match goal with Hf : _ = false |- _ => rewrite Hf; clear Hf end.
    reflexivity.
  - split_andb. subst x. cbn [app]. rewrite scanstring_cons.
    change (Ascii.eqb backslash dquote) with false.
    change (Ascii.eqb backslash backslash) with true. cbv iota.
    match goal with Hf : Ascii.eqb e _ = false |- _ => rewrite Hf end.
    destruct (unescape e) as [c'|]; [|discriminate].
    split_andb. subst c'. reflexivity.
  - split_andb. subst x e. cbn [app]. rewrite scanstring_cons.
    change (Ascii.eqb backslash dquote) with false.
    change (Ascii.eqb backslash backslash) with true. cbv iota.
    change (Ascii.eqb "u" "u") with true. cbv iota.
    destruct (hex4 h1 h2 h3 h4) as [n|]; [|discriminate].
    split_andb.
    match goal with Hn : (n <? 256)%N = true |- _ => rewrite Hn end.
    match goal with Hc : ascii_of_N n = c |- _ => rewrite Hc end.
    reflexivity.
Qed.

Lemma scanstring_escape (cs rest : list ascii) :
  scanstring (flat_map escape_char cs ++ dquote :: rest) = Ok (cs, rest).
Proof.
  induction cs as [|c cs IH]; [reflexivity|].
  cbn [flat_map]. rewrite <- app_assoc, scanstring_escape_char, IH.
  reflexivity.
Qed.

Lemma scan_once_string (f : nat) (s : string) (rest : list ascii) :
  scan_once (S f) (encode_basestring_ascii s ++ rest) = Ok (JStr s, rest).
Proof.
  unfold encode_basestring_ascii. cbn [app scan_once].
  change (Ascii.eqb dquote dquote) with true. cbv iota.
  rewrite <- app_assoc. cbn [app]. rewrite scanstring_escape.
  cbn. by rewrite text_chars.
Qed.

Lemma encode_item_app (kv : string * string) (Y : list ascii) :
  encode_item kv ++ Y
  = dquote :: flat_map escape_char (chars kv.1)
      ++ dquote :: ":"%char :: " "%char :: encode_basestring_ascii kv.2 ++ Y.
Proof.
  unfold encode_item, encode_basestring_ascii.
  change (chars ": ") with [":"%char; " "%char].
  repeat (rewrite <- ?app_assoc; cbn [app]). reflexivity.
Qed.

Section Members.
Variable scan : list ascii → result (json * list ascii).
Hypothesis scan_string : ∀ s rest,
  scan (encode_basestring_ascii s ++ rest) = Ok (JStr s, rest).

Lemma parse_members_item (n : nat) (kv : string * string) (Y : list ascii) :
  parse_members scan (S n) (encode_item kv ++ Y)
  = match skip_ws Y with
    | d :: r3 =>
        if Ascii.eqb d "}"%char then Ok ([jstr_item kv], r3)
        else if Ascii.eqb d ","%char then
          '(kvs, rest) ← parse_members scan n (skip_ws r3) ;
          Ok (jstr_item kv :: kvs, rest)
        else Raise JSONDecodeError
    | [] => Raise JSONDecodeError
    end.
Proof.
  rewrite encode_item_app. cbn [parse_members].
  change (Ascii.eqb dquote dquote) with true. cbv iota.
  rewrite scanstring_escape. cbn [mbind result_bind].
  change (skip_ws (":"%char :: " "%char :: ?t))
    with (":"%char :: " "%char :: t).
  change (Ascii.eqb ":" ":") with true. cbv iota.
  assert (Hws : skip_ws (" "%char :: encode_basestring_ascii kv.2 ++ Y)
                = encode_basestring_ascii kv.2 ++ Y) by reflexivity.
  rewrite Hws, scan_string. cbn [mbind result_bind].
  rewrite text_chars. reflexivity.
Qed.

Lemma encode_items_head (kv : string * string) (kvs : list (string * string)) :
  ∃ tl, encode_items (kv :: kvs) = dquote :: tl.
Proof.
  destruct kvs; cbn [encode_items].
  - rewrite <- (app_nil_r (encode_item kv)), encode_item_app. eauto.
  - rewrite encode_item_app. eauto.
Qed.

Lemma parse_members_items (kvs : list (string * string)) :
  kvs ≠ [] → ∀ (n : nat) rest, (length kvs ≤ n)%nat →
  parse_members scan n (encode_items kvs ++ "}"%char :: rest)
  = Ok (map jstr_item kvs, rest).
Proof.
  induction kvs as [|kv kvs IH]; [done|]. intros _ n rest Hn.
  destruct n as [|n]; [cbn in Hn; lia|].
  destruct kvs as [|kv2 kvs].
  - cbn [encode_items]. rewrite parse_members_item. reflexivity.
  - change (encode_items (kv :: kv2 :: kvs))
      with (encode_item kv ++ chars ", " ++ encode_items (kv2 :: kvs)).
    rewrite <- !app_assoc. rewrite parse_members_item.
    destruct (encode_items_head kv2 kvs) as [tl Htl].
    rewrite Htl. cbn [chars list_ascii_of_string app].
    change (skip_ws (","%char :: ?t)) with (","%char :: t).
    change (Ascii.eqb "," "}") with false.
    change (Ascii.eqb "," ",") with true. cbv iota.
    change (skip_ws (" "%char :: dquote :: ?t)) with (dquote :: t).
    change (dquote :: tl ++ "}"%char :: rest)
      with ((dquote :: tl) ++ "}"%char :: rest).
    rewrite <- Htl, IH; [reflexivity|done|cbn in *; lia].
Qed.
End Members.

Lemma encode_items_length (kvs : list (string * string)) :
  (length kvs ≤ length (encode_items kvs))%nat.
Proof.
  induction kvs as [|kv kvs IH]; [done|].
  destruct kvs as [|kv2 kvs].
  - cbn [encode_items]. pose proof (encode_item_app kv []) as H.
    rewrite app_nil_r in H. rewrite H. cbn. lia.
  - change (encode_items (kv :: kv2 :: kvs))
      with (encode_item kv ++ chars ", " ++ encode_items (kv2 :: kvs)).
    rewrite !length_app. cbn in *. lia.
Qed.

Lemma scan_once_object (f : nat) (r : list ascii) :
  scan_once (S f) ("{"%char :: r)
  = match skip_ws r with
    | d :: r1 =>
        if Ascii.eqb d "}"%char then Ok (JObj [], r1)
        else
          '(kvs, rest) ←
            parse_members (scan_once f) (S (length r)) (d :: r1) ;
          Ok (JObj kvs, rest)
    | [] => Raise JSONDecodeError
    end.
Proof. reflexivity. Qed.

(** [json.loads(json.dumps(d))] is the object with the members of [d]. *)
Lemma loads_dumps_members (d : gmap string string) :
  loads (dumps d) = Ok (JObj (map jstr_item (map_to_list d))).
Proof.
  unfold loads, dumps. rewrite chars_text.
  change (skip_ws ("{"%char :: ?t)) with ("{"%char :: t).
  rewrite scan_once_object.
  destruct (map_to_list d) as [|kv kvs] eqn:Hl; [reflexivity|].
  destruct (encode_items_head kv kvs) as [tl Htl].
  rewrite Htl at 1. cbn [app].
  change (skip_ws (dquote :: ?t)) with (dquote :: t).
  change (Ascii.eqb dquote "}") with false. cbv iota.
  change (dquote :: tl ++ ["}"%char]) with ((dquote :: tl) ++ ["}"%char]).
  rewrite <- Htl.
  rewrite parse_members_items.
  - reflexivity.
  - intros s rest. cbn [length]. rewrite length_app, Nat.add_1_r.
    apply scan_once_string.
  - done.
  - pose proof (encode_items_length (kv :: kvs)).
    rewrite length_app. lia.
Qed.

(** *** The fuel of the decoder is enough *)

Ltac break_hyp :=
  match goal with
  | H : context [match ?x with _ => _ end] |- _ => destruct x eqn:?
  | H : context [if ?x then _ else _] |- _ => destruct x eqn:?
  end.

Lemma skip_ws_length (s : list ascii) : (length (skip_ws s) ≤ length s)%nat.
Proof.
  induction s as [|c s IH]; [done|]. cbn [skip_ws].
  destruct (is_ws c); cbn [length]; lia.
Qed.

Lemma bind_ok {A B} (r : result A) (k : A → result B) (b : B) :
  r ≫= k = Ok b → ∃ a, r = Ok a ∧ k a = Ok b.
Proof. destruct r; [eauto|done]. Qed.

Lemma bind_raise {A B} (r : result A) (k : A → result B) (e : exn) :
  r ≫= k = Raise e → r = Raise e ∨ ∃ a, r = Ok a ∧ k a = Raise e.
Proof. destruct r as [a|e']; [eauto|]. intros [= ->]. by left. Qed.

Lemma scanstring_fuel (n : nat) :
  ∀ s, (length s ≤ n)%nat →
    scanstring s ≠ Raise RecursionError
    ∧ ∀ str rest, scanstring s = Ok (str, rest) → (length rest < length s)%nat.
Proof.
  induction n as [|n IH]; intros s Hn.
  { destruct s; [|cbn in Hn; lia]. split; [done|]. intros ? ? [=]. }
  destruct s as [|c r]; [split; [done|intros ? ? [=]]|].
  cbn [length] in Hn. rewrite scanstring_cons.
  destruct (Ascii.eqb c dquote).
  { split; [done|]. intros ? ? [= <- <-]. cbn. lia. }
  destruct (Ascii.eqb c backslash).
  - destruct r as [|e r1]; [split; [done|intros ? ? [=]]|].
    cbn [length] in Hn.
    destruct (Ascii.eqb e "u").
    + destruct r1 as [|h1 [|h2 [|h3 [|h4 r2]]]];
        try (split; [done|intros ? ? [=]]).
      cbn [length] in Hn.
      destruct (hex4 h1 h2 h3 h4) as [m|]; [|split; [done|intros ? ? [=]]].
      destruct (m <? 256)%N; [|split; [done|intros ? ? [=]]].
      destruct (IH r2 ltac:(lia)) as [H1 H2].
      destruct (scanstring r2) as [[str rest]|e']; cbn.
      * split; [done|]. intros ? ? [= <- <-].
        specialize (H2 _ _ eq_refl). lia.
      * split; [congruence|intros ? ? [=]].
    + destruct (unescape e); [|split; [done|intros ? ? [=]]].
      destruct (IH r1 ltac:(lia)) as [H1 H2].
      destruct (scanstring r1) as [[str rest]|e']; cbn.
      * split; [done|]. intros ? ? [= <- <-].
        specialize (H2 _ _ eq_refl). lia.
      * split; [congruence|intros ? ? [=]].
  - destruct (code c <? 32)%N; [split; [done|intros ? ? [=]]|].
    destruct (IH r ltac:(lia)) as [H1 H2].
    destruct (scanstring r) as [[str rest]|e']; cbn.
    * split; [done|]. intros ? ? [= <- <-].
      specialize (H2 _ _ eq_refl). lia.
    * split; [congruence|intros ? ? [=]].
Qed.

Lemma strip_prefix_length (p s r : list ascii) :
  strip_prefix p s = Some r → length s = (length p + length r)%nat.
Proof.
  revert s. induction p as [|a p IH]; intros s; cbn [strip_prefix].
  - by intros [= ->].
  - destruct s as [|b s]; [done|]. destruct (Ascii.eqb a b); [|done].
    intros H%IH. cbn [length]. lia.
Qed.

Lemma scan_constant_length (s r : list ascii) (v : json) :
  scan_constant s = Some (v, r) → (length r < length s)%nat.
Proof.
  unfold scan_constant.
  repeat match goal with
  | |- context [strip_prefix ?p s] =>
      let H := fresh in
      destruct (strip_prefix p s) eqn:H;
      [apply strip_prefix_length in H; intros [= <- <-]; cbn in H; lia|]
  end.
  done.
Qed.

Lemma span_digits_length (s ds r : list ascii) :
  span_digits s = (ds, r) → (length r ≤ length s)%nat.
Proof.
  revert ds r. induction s as [|c s IH]; intros ds r; cbn [span_digits].
  - by intros [= <- <-].
  - destruct (is_digit c).
    + destruct (span_digits s) as [ds' r']. intros [= <- <-].
      specialize (IH _ _ eq_refl). cbn. lia.
    + intros [= <- <-]. done.
Qed.

Lemma scan_number_length (s r : list ascii) (v : json) :
  scan_number s = Some (v, r) → (length r < length s)%nat.
Proof.
  unfold scan_number, scan_int, scan_frac, scan_exp. intros H.
  repeat break_hyp; simplify_eq;
    repeat match goal with
    | H : span_digits _ = _ |- _ => apply span_digits_length in H
    end; cbn [length] in *; lia.
Qed.

Section Loops.
Variable scan : list ascii → result (json * list ascii).
Variable bound : nat.
Hypothesis scan_consumes : ∀ s, (length s < bound)%nat → consumes scan s.

Lemma parse_elems_fuel (n : nat) :
  ∀ s, (length s < n)%nat → (length s < bound)%nat →
    consumes (parse_elems scan n) s.
Proof.
  induction n as [|n IH]; intros s Hn Hb; [lia|].
  unfold consumes. cbn [parse_elems].
  destruct (scan_consumes s Hb) as [H1 H2].
  destruct (scan s) as [[v r]|e]; cbn; [|split; [congruence|intros ? ? [=]]].
  specialize (H2 _ _ eq_refl).
  pose proof (skip_ws_length r) as Hw.
  destruct (skip_ws r) as [|c r1]; [split; [done|intros ? ? [=]]|].
  cbn [length] in Hw.
  destruct (Ascii.eqb c "]").
  { split; [done|]. intros ? ? [= <- <-]. lia. }
  destruct (Ascii.eqb c ","); [|split; [done|intros ? ? [=]]].
  pose proof (skip_ws_length r1) as Hw1.
  destruct (IH (skip_ws r1) ltac:(lia) ltac:(lia)) as [H3 H4].
  destruct (parse_elems scan n (skip_ws r1)) as [[vs rest]|e]; cbn.
  - split; [done|]. intros ? ? [= <- <-]. specialize (H4 _ _ eq_refl). lia.
  - split; [congruence|intros ? ? [=]].
Qed.

Lemma parse_members_fuel (n : nat) :
  ∀ s, (length s < n)%nat → (length s ≤ bound)%nat →
    consumes (parse_members scan n) s.
Proof.
  induction n as [|n IH]; intros s Hn Hb; [lia|].
  unfold consumes. cbn [parse_members].
  destruct s as [|q r0]; [split; [done|intros ? ? [=]]|].
  cbn [length] in Hn, Hb.
  destruct (Ascii.eqb q dquote); [|split; [done|intros ? ? [=]]].
  destruct (scanstring_fuel _ r0 (le_n _)) as [H1 H2].
  destruct (scanstring r0) as [[key r]|e]; cbn;
    [|split; [congruence|intros ? ? [=]]].
  specialize (H2 _ _ eq_refl).
  pose proof (skip_ws_length r) as Hw.
  destruct (skip_ws r) as [|c r1]; [split; [done|intros ? ? [=]]|].
  cbn [length] in Hw.
  destruct (Ascii.eqb c ":"); [|split; [done|intros ? ? [=]]].
  pose proof (skip_ws_length r1) as Hw1.
  destruct (scan_consumes (skip_ws r1) ltac:(lia)) as [H3 H4].
  destruct (scan (skip_ws r1)) as [[v r2]|e]; cbn;
    [|split; [congruence|intros ? ? [=]]].
  specialize (H4 _ _ eq_refl).
  pose proof (skip_ws_length r2) as Hw2.
  destruct (skip_ws r2) as [|d r3]; [split; [done|intros ? ? [=]]|].
  cbn [length] in Hw2.
  destruct (Ascii.eqb d "}").
  { split; [done|]. intros ? ? [= <- <-]. lia. }
  destruct (Ascii.eqb d ","); [|split; [done|intros ? ? [=]]].
  pose proof (skip_ws_length r3) as Hw3.
  destruct (IH (skip_ws r3) ltac:(lia) ltac:(lia)) as [H5 H6].
  destruct (parse_members scan n (skip_ws r3)) as [[kvs rest]|e]; cbn.
  - split; [done|]. intros ? ? [= <- <-]. specialize (H6 _ _ eq_refl). lia.
  - split; [congruence|intros ? ? [=]].
Qed.
End Loops.

Lemma scan_once_fuel (fuel : nat) :
  ∀ s, (length s < fuel)%nat → consumes (scan_once fuel) s.
Proof.
  induction fuel as [|f IH]; intros s Hf; [lia|].
  unfold consumes. cbn [scan_once].
  destruct s as [|c r]; [split; [done|intros ? ? [=]]|].
  cbn [length] in Hf.
  destruct (Ascii.eqb c dquote).
  { destruct (scanstring_fuel _ r (le_n _)) as [H1 H2].
    destruct (scanstring r) as [[str rest]|e]; cbn.
    - split; [done|]. intros ? ? [= <- <-]. specialize (H2 _ _ eq_refl). cbn [length] in *; lia.
    - split; [congruence|intros ? ? [=]]. }
  pose proof (skip_ws_length r) as Hw.
  destruct (Ascii.eqb c "{").
  { destruct (skip_ws r) as [|d r1] eqn:Hs; [split; [done|intros ? ? [=]]|].
    cbn [length] in Hw.
    destruct (Ascii.eqb d "}").
    { split; [done|]. intros ? ? [= <- <-]. cbn [length] in *; lia. }
    destruct (parse_members_fuel (scan_once f) f IH (S (length r)) (d :: r1))
      as [H1 H2]; [cbn [length]; lia..|].
    destruct (parse_members _ _ _) as [[kvs rest]|e]; cbn.
    - split; [done|]. intros ? ? [= <- <-]. specialize (H2 _ _ eq_refl).
      cbn [length] in *; lia.
    - split; [congruence|intros ? ? [=]]. }
  destruct (Ascii.eqb c "[").
  { destruct (skip_ws r) as [|d r1] eqn:Hs; [split; [done|intros ? ? [=]]|].
    cbn [length] in Hw.
    destruct (Ascii.eqb d "]").
    { split; [done|]. intros ? ? [= <- <-]. cbn [length] in *; lia. }
    destruct (parse_elems_fuel (scan_once f) f IH (S (length r)) (d :: r1))
      as [H1 H2]; [cbn [length]; lia..|].
    destruct (parse_elems _ _ _) as [[vs rest]|e]; cbn.
    - split; [done|]. intros ? ? [= <- <-]. specialize (H2 _ _ eq_refl).
      cbn [length] in *; lia.
    - split; [congruence|intros ? ? [=]]. }
  destruct (scan_constant (c :: r)) as [[v r']|] eqn:Hc.
  { apply scan_constant_length in Hc. split; [done|].
    intros ? ? [= <- <-]. cbn [length] in *; lia. }
  destruct (scan_number (c :: r)) as [[v r']|] eqn:Hn.
  { apply scan_number_length in Hn. split; [done|].
    intros ? ? [= <- <-]. cbn [length] in *; lia. }
  split; [done|intros ? ? [=]].
Qed.

(** The decoder never runs out of fuel. *)
Lemma loads_no_RecursionError (s : string) : loads s ≠ Raise RecursionError.
Proof.
  unfold loads. pose proof (skip_ws_length (chars s)) as Hw.
  destruct (scan_once_fuel (S (length (chars s))) (skip_ws (chars s)))
    as [H1 _]; [lia|].
  destruct (scan_once _ _) as [[v r]|e]; cbn; [|congruence].
  by destruct (skip_ws r).
Qed.

End JsonFacts.

(** ** Facts about the model *)

Section ModelFacts.

Lemma loads_dumps_dict (d : gmap string string) :
  loads (dumps d) ≫= as_dict = Ok (JStr <$> d).
Proof.
  rewrite JsonFacts.loads_dumps_members.
  cbn [mbind result_bind as_dict]. f_equal. unfold py_dict.
  change (map jstr_item (map_to_list d))
    with (prod_map id JStr <$> map_to_list d).
  transitivity (list_to_map (M:=gmap string json)
                  (prod_map id JStr <$> map_to_list d)).
  - symmetry. apply list_to_map_proper; [|by rewrite reverse_Permutation].
    rewrite <- list_fmap_compose.
    erewrite list_fmap_ext; [apply NoDup_fst_map_to_list|].
    by intros ? [] ?.
  - by rewrite list_to_map_fmap, list_to_map_to_list.
Qed.

(** *** Relations of the model *)

Lemma find_relation_elem (id : Z) (rs : list Relation) (r : Relation) :
  find_relation id rs = Some r → r ∈ rs.
Proof.
  unfold find_relation. intros H. apply find_some in H as [H _].
  by apply list_elem_of_In.
Qed.

Lemma find_alter_relation (id : Z) (f : Relation → Relation)
    (rs : list Relation) :
  (∀ r, rel_id (f r) = rel_id r) →
  find_relation id (alter_relation id f rs) = f <$> find_relation id rs.
Proof.
  intros Hf. induction rs as [|r rs IH]; [done|].
  cbn [alter_relation]. unfold find_relation in *. cbn [List.find].
  destruct (bool_decide (rel_id r = id)) eqn:E.
  - cbn [List.find]. rewrite Hf, E. done.
  - cbn [List.find]. rewrite E. done.
Qed.

Lemma alter_alter_relation (id : Z) (f g : Relation → Relation)
    (rs : list Relation) :
  (∀ r, rel_id (f r) = rel_id r) →
  alter_relation id g (alter_relation id f rs)
  = alter_relation id (g ∘ f) rs.
Proof.
  intros Hf. induction rs as [|r rs IH]; [done|].
  cbn [alter_relation].
  destruct (bool_decide (rel_id r = id)) eqn:E; cbn [alter_relation].
  - by rewrite Hf, E.
  - by rewrite E, IH.
Qed.

Lemma find_store_bag (id : Z) (e : Entity) (bag : gmap string string)
    (w : World) :
  find_relation id (relations (store_bag id e bag w))
  = (λ r, mkRelation (rel_id r) (<[e := bag]> (rel_data r)))
      <$> find_relation id (relations w).
Proof. unfold store_bag. cbn. by apply find_alter_relation. Qed.

Lemma store_bag_store_bag (id : Z) (e : Entity)
    (bag1 bag2 : gmap string string) (w : World) :
  store_bag id e bag2 (store_bag id e bag1 w) = store_bag id e bag2 w.
Proof.
  unfold store_bag, set_relations. cbn. f_equal.
  rewrite alter_alter_relation by done.
  induction (relations w) as [|r rs IH]; [done|].
  cbn. case_bool_decide; [|by rewrite IH].
  f_equal. cbn. f_equal. apply insert_insert_eq.
Qed.

(** *** Running the accessors *)

Lemma relation_data_run (id : Z) (e : Entity) (w : World) :
  relation_data id e w
  = (w, match find_relation id (relations w) with
        | Some r =>
            match rel_data r !! e with
            | Some bag => Ok bag
            | None => Raise KeyError
            end
        | None => Raise ModelError
        end).
Proof.
  unfold relation_data, get_relation, mbind, M_bind.
  destruct (find_relation id (relations w)) as [r|]; [|done].
  by destruct (rel_data r !! e).
Qed.

Lemma relation_data_update_run (id : Z) (e : Entity)
    (d : gmap string string) (w : World) :
  relation_data_update id e d w
  = match find_relation id (relations w) with
    | Some r =>
        match rel_data r !! e with
        | Some bag => (store_bag id e (dict_update d bag) w, Ok ())
        | None => (w, Raise KeyError)
        end
    | None => (w, Raise ModelError)
    end.
Proof.
  unfold relation_data_update, mbind, M_bind. rewrite relation_data_run.
  destruct (find_relation id (relations w)) as [r|]; [|done].
  by destruct (rel_data r !! e).
Qed.

(** *** [_diff], step by step *)

Lemma _diff_run (self : BaseRequires.t) (event : RelationEvent) (w : World) :
  BaseRequires._diff self event w
  = match find_relation (RelationEvent.relation event) (relations w) with
    | None => (w, Raise ModelError)
    | Some r =>
    match rel_data r !! Unit (BaseRequires.local_unit self) with
    | None => (w, Raise KeyError)
    | Some local =>
    match loads (default "{}" (local !! "data")) with
    | Raise e => (w, Raise e)
    | Ok old_json =>
    match rel_data r !! Application (RelationEvent.app event) with
    | None => (w, Raise KeyError)
    | Some remote =>
    match as_dict old_json with
    | Raise e => (w, Raise e)
    | Ok old_data =>
        let new_data := filter (λ kv, kv.1 ≠ "data") remote in
        (store_bag (RelationEvent.relation event) (Unit (BaseRequires.local_unit self))
           (dict_update {[ "data" := dumps new_data ]} local) w,
         Ok (mkDiff (dom new_data ∖ dom old_data)
               (filter (λ key, value_differs old_data new_data key)
                  (dom old_data ∩ dom new_data))
               (dom old_data ∖ dom new_data)))
    end end end end end.
Proof.
  cbv [BaseRequires._diff mbind M_bind lift].
  rewrite relation_data_run.
  destruct (find_relation (RelationEvent.relation event) (relations w)) as [r|] eqn:Hr;
    [|done].
  destruct (rel_data r !! Unit _) as [local|] eqn:Hl; [|done].
  destruct (loads _) as [old_json|]; [|done].
  rewrite relation_data_run, Hr.
  destruct (rel_data r !! Application _) as [remote|]; [|done].
  destruct (as_dict old_json) as [old_data|]; [|done].
  rewrite relation_data_update_run, Hr, Hl. reflexivity.
Qed.

Lemma _diff_emitted (self : BaseRequires.t) (event : RelationEvent)
    (w : World) :
  emitted (BaseRequires._diff self event w).1 = emitted w
  ∧ defined_events (BaseRequires._diff self event w).1 = defined_events w
  ∧ is_leader (BaseRequires._diff self event w).1 = is_leader w.
Proof.
  rewrite _diff_run.
  repeat match goal with |- context [match ?x with _ => _ end] =>
    destruct x end; done.
Qed.

End ModelFacts.

(** ** Properties of [_diff] *)

Section DiffProperties.

Lemma value_differs_same (d : gmap string string) (key : string) :
  value_differs (JStr <$> d) d key = false.
Proof.
  unfold value_differs. rewrite lookup_fmap.
  destruct (d !! key) as [v|]; [|done]. cbn.
  by rewrite String.eqb_refl.
Qed.

Lemma py_ne_spec (old : json) (new : string) :
  py_ne old new = true ↔ old ≠ JStr new.
Proof.
  destruct old; cbn; try (split; [discriminate|done]).
  rewrite negb_true_iff. split.
  - intros H [= ->]. by rewrite String.eqb_refl in H.
  - intros H. apply String.eqb_neq. congruence.
Qed.

Lemma dict_update_data (text : string) (local : gmap string string) :
  dict_update {[ "data" := text ]} local !! "data" = Some text.
Proof.
  unfold dict_update. apply lookup_union_Some_l, lookup_singleton_eq.
Qed.

Lemma dict_update_idemp (d bag : gmap string string) :
  dict_update d (dict_update d bag) = dict_update d bag.
Proof.
  unfold dict_update. by rewrite (assoc_L (∪)), (idemp_L (∪)).
Qed.

(** C1: a second [_diff] with no change in between returns the empty
    diff, and leaves the stored baseline as the first call wrote it. *)
Theorem diff_twice_is_empty (self : BaseRequires.t) (event : RelationEvent)
    (w w1 : World) (d1 : Diff) :
  BaseRequires._diff self event w = (w1, Ok d1) →
  BaseRequires._diff self event w1 = (w1, Ok (mkDiff ∅ ∅ ∅)).
Proof.
  rewrite _diff_run.
  destruct (find_relation _ (relations w)) as [r|] eqn:Hr; [|done].
  destruct (rel_data r !! Unit _) as [local|] eqn:Hl; [|done].
  destruct (loads _) as [old_json|]; [|done].
  destruct (rel_data r !! Application _) as [remote|] eqn:Ha; [|done].
  destruct (as_dict old_json) as [old_data|]; [|done].
  cbv zeta. intros [= <- _].
  set (new_data := filter (λ kv : string * string, kv.1 ≠ "data") remote).
  rewrite _diff_run, find_store_bag, Hr. cbn [fmap option_fmap option_map rel_data].
  rewrite lookup_insert_eq, dict_update_data. cbn [from_option id].
  rewrite lookup_insert_ne by done. rewrite Ha.
  pose proof (loads_dumps_dict new_data) as Hrt.
  destruct (loads (dumps new_data)) as [j|]; [|done].
  cbn [mbind result_bind] in Hrt. rewrite Hrt. cbv zeta. fold new_data.
  rewrite store_bag_store_bag, dict_update_idemp. do 2 f_equal.
  rewrite dom_fmap_L. f_equal; [set_solver| |set_solver].
  apply set_eq. intros k. rewrite elem_of_filter, value_differs_same.
  set_solver.
Qed.

Lemma diff_twice_is_empty_witness :
  BaseRequires._diff Scenario.requirer Scenario.changed_event
    (BaseRequires._diff Scenario.requirer Scenario.changed_event
       Scenario.w_fresh).1
  = ((BaseRequires._diff Scenario.requirer Scenario.changed_event
        Scenario.w_fresh).1,
     Ok (mkDiff ∅ ∅ ∅)).
Proof.
  apply (diff_twice_is_empty Scenario.requirer Scenario.changed_event
           Scenario.w_fresh _ (mkDiff {[ "username"; "password" ]} ∅ ∅)).
  vm_compute. reflexivity.
Defined.

(** C2: [_diff] returns the key-wise difference between the decoded
    baseline [prior] and the remote application's databag without its
    [data] key, [current]; the three sets are pairwise disjoint; a
    missing baseline is the empty mapping; afterwards the stored
    baseline decodes to [current]. *)
Theorem diff_is_keywise_difference (self : BaseRequires.t)
    (event : RelationEvent) (w : World) (r : Relation)
    (local remote : gmap string string) (members : list (string * json)) :
  find_relation (RelationEvent.relation event) (relations w) = Some r →
  rel_data r !! Unit (BaseRequires.local_unit self) = Some local →
  rel_data r !! Application (RelationEvent.app event) = Some remote →
  loads (default "{}" (local !! "data")) = Ok (JObj members) →
  let prior := py_dict members in
  let current := filter (λ kv, kv.1 ≠ "data") remote in
  ∃ (w' : World) (d : Diff) (local' : gmap string string),
    BaseRequires._diff self event w = (w', Ok d)
    ∧ added d = dom current ∖ dom prior
    ∧ deleted d = dom prior ∖ dom current
    ∧ (∀ k, k ∈ changed d ↔
         ∃ old new, prior !! k = Some old ∧ current !! k = Some new
                    ∧ old ≠ JStr new)
    ∧ added d ## changed d ∧ added d ## deleted d ∧ changed d ## deleted d
    ∧ (∀ k, current !! k = if decide (k = "data") then None else remote !! k)
    ∧ (local !! "data" = None → prior = ∅)
    ∧ relation_data (RelationEvent.relation event)
        (Unit (BaseRequires.local_unit self)) w' = (w', Ok local')
    ∧ loads (default "{}" (local' !! "data")) ≫= as_dict
      = Ok (JStr <$> current).
Proof.
  intros Hr Hl Ha Hj prior current.
  rewrite _diff_run, Hr, Hl, Hj, Ha. cbn [as_dict]. cbv zeta.
  fold prior current.
  eexists _, _, (dict_update {[ "data" := dumps current ]} local).
  split; [reflexivity|]. cbn [added changed deleted].
  repeat split.
  - rewrite elem_of_filter. unfold value_differs. intros [Hd _].
    destruct (prior !! k) as [old|]; [|done].
    destruct (current !! k) as [new|]; [|done].
    exists old, new. repeat split. by apply py_ne_spec, Is_true_true.
  - intros (old & new & Ho & Hn & Hne). rewrite elem_of_filter.
    unfold value_differs. rewrite Ho, Hn. split.
    + by apply Is_true_true, py_ne_spec.
    + apply elem_of_intersection; split; apply elem_of_dom; eauto.
  - set_solver.
  - set_solver.
  - set_solver.
  - intros k. unfold current. case_decide as Hk.
    + subst k. apply map_lookup_filter_None. right. intros ? _. cbn. tauto.
    + destruct (remote !! k) as [v|] eqn:Hv.
      * by apply map_lookup_filter_Some.
      * apply map_lookup_filter_None. by left.
  - intros Hnone. rewrite Hnone in Hj. cbn in Hj.
    assert (members = []) as -> by congruence. done.
  - rewrite relation_data_run, find_store_bag, Hr. cbn.
    by rewrite lookup_insert_eq.
  - rewrite dict_update_data. cbn [from_option id].
    apply loads_dumps_dict.
Qed.

Lemma diff_is_keywise_difference_witness :
  ∃ (w' : World) (d : Diff),
    BaseRequires._diff Scenario.requirer Scenario.changed_event
      Scenario.w_fresh = (w', Ok d)
    ∧ added d = dom (filter (λ kv, kv.1 ≠ "data") Scenario.credentials)
                ∖ dom (py_dict []).
Proof.
  destruct (diff_is_keywise_difference Scenario.requirer
              Scenario.changed_event Scenario.w_fresh
              (Scenario.relation_with 1 "database" Scenario.credentials ∅)
              ∅ Scenario.credentials [])
    as (w' & d & _ & H1 & H2 & _).
  - reflexivity.
  - reflexivity.
  - reflexivity.
  - reflexivity.
  - exists w', d. split; [exact H1 | exact H2].
Defined.

(** C8, as stated, fails: with the baseline [not json] stored, [_diff]
    raises [JSONDecodeError] instead of reporting the current fields as
    added. *)
Lemma diff_corrupt_baseline_raises :
  BaseRequires._diff Scenario.requirer Scenario.changed_event
    Scenario.w_corrupt
  = (Scenario.w_corrupt, Raise JSONDecodeError)
  ∧ ¬ ∃ w' d,
      BaseRequires._diff Scenario.requirer Scenario.changed_event
        Scenario.w_corrupt = (w', Ok d).
Proof.
  assert (H : BaseRequires._diff Scenario.requirer Scenario.changed_event
                Scenario.w_corrupt
              = (Scenario.w_corrupt, Raise JSONDecodeError))
    by (vm_compute; reflexivity).
  split; [exact H|]. intros (w' & d & H'). congruence.
Qed.

(** C8, amended: only a missing baseline is read as the empty mapping
    (every current field is then added); a stored baseline that
    [json.loads] rejects makes [_diff] raise [JSONDecodeError], and
    nothing is written. *)
Theorem diff_baseline_missing_or_unparseable (self : BaseRequires.t)
    (event : RelationEvent) (w : World) (r : Relation)
    (local remote : gmap string string) :
  find_relation (RelationEvent.relation event) (relations w) = Some r →
  rel_data r !! Unit (BaseRequires.local_unit self) = Some local →
  rel_data r !! Application (RelationEvent.app event) = Some remote →
  (local !! "data" = None →
     ∃ w', BaseRequires._diff self event w
           = (w', Ok (mkDiff (dom (filter (λ kv, kv.1 ≠ "data") remote)) ∅ ∅)))
  ∧ (∀ text, local !! "data" = Some text →
       loads text = Raise JSONDecodeError →
       BaseRequires._diff self event w = (w, Raise JSONDecodeError)).
Proof.
  intros Hr Hl Ha. split.
  - intros Hnone. rewrite _diff_run, Hr, Hl, Hnone, Ha.
    change (loads (default "{}" None)) with (Ok (JObj [])).
    cbn [as_dict]. cbv zeta. eexists. do 2 f_equal.
    change (py_dict []) with (∅ : gmap string json).
    rewrite dom_empty_L. f_equal; [set_solver| |set_solver].
    apply set_eq. intros k. rewrite elem_of_filter. set_solver.
  - intros text Hsome He. rewrite _diff_run, Hr, Hl, Hsome.
    cbn [from_option id]. by rewrite He.
Qed.

Lemma diff_baseline_missing_or_unparseable_witness :
  BaseRequires._diff Scenario.requirer Scenario.changed_event
    Scenario.w_corrupt
  = (Scenario.w_corrupt, Raise JSONDecodeError).
Proof.
  apply (diff_baseline_missing_or_unparseable Scenario.requirer
           Scenario.changed_event Scenario.w_corrupt
           (Scenario.relation_with 1 "database" Scenario.credentials
              {[ "data" := "not json" ]})
           {[ "data" := "not json" ]} Scenario.credentials
           eq_refl eq_refl eq_refl) with (text := "not json").
  - reflexivity.
  - reflexivity.
Defined.

End DiffProperties.

(** ** Writing to the application databag *)

Section WriteProperties.

Lemma find_store_bag_ne (id id' : Z) (e : Entity)
    (bag : gmap string string) (w : World) :
  id' ≠ id →
  find_relation id' (relations (store_bag id e bag w))
  = find_relation id' (relations w).
Proof.
  intros Hne. unfold store_bag, find_relation. cbn.
  induction (relations w) as [|r rs IH]; [done|].
  cbn [alter_relation]. case_bool_decide as Hid.
  - cbn [List.find rel_id]. rewrite Hid.
    by rewrite !bool_decide_eq_false_2 by done.
  - cbn [List.find]. by rewrite IH.
Qed.

Lemma _update_relation_data_run (self : BaseRequires.t) (relation_id : Z)
    (data : gmap string string) (w : World) :
  BaseRequires._update_relation_data self relation_id data w
  = if is_leader w then
      relation_data_update relation_id
        (Application (BaseRequires.local_app self)) data w
    else (w, Ok ()).
Proof.
  cbv [BaseRequires._update_relation_data mbind M_bind gets mret M_ret].
  by destruct (is_leader w).
Qed.

(** C4: off the leader [_update_relation_data] changes nothing and
    returns normally; on the leader the local application databag of the
    relation becomes [data] merged over its old content, and nothing
    else changes. *)
Theorem update_relation_data_leader_only (self : BaseRequires.t)
    (relation_id : Z) (data : gmap string string) (w : World) :
  (is_leader w = false →
     BaseRequires._update_relation_data self relation_id data w = (w, Ok ()))
  ∧ (is_leader w = true →
     ∀ r bag,
       find_relation relation_id (relations w) = Some r →
       rel_data r !! Application (BaseRequires.local_app self) = Some bag →
       ∃ w' r',
         BaseRequires._update_relation_data self relation_id data w
         = (w', Ok ())
         ∧ find_relation relation_id (relations w') = Some r'
         ∧ rel_id r' = rel_id r
         ∧ (∃ bag', rel_data r' !! Application (BaseRequires.local_app self)
                    = Some bag'
                    ∧ ∀ k, bag' !! k = match data !! k with
                                       | Some v => Some v
                                       | None => bag !! k
                                       end)
         ∧ (∀ e, e ≠ Application (BaseRequires.local_app self) →
                 rel_data r' !! e = rel_data r !! e)
         ∧ (∀ id', id' ≠ relation_id →
                   find_relation id' (relations w')
                   = find_relation id' (relations w))
         ∧ is_leader w' = is_leader w
         ∧ emitted w' = emitted w
         ∧ defined_events w' = defined_events w).
Proof.
  rewrite _update_relation_data_run. split; intros Hl; rewrite Hl; [done|].
  intros r bag Hr Hb. rewrite relation_data_update_run, Hr, Hb.
  eexists _, _. split; [reflexivity|].
  rewrite find_store_bag, Hr. cbn.
  split; [reflexivity|]. split; [reflexivity|].
  split; [|split; [|split; [|done]]].
  - eexists. cbn [rel_data]. rewrite lookup_insert_eq. split; [reflexivity|].
    intros k. unfold dict_update. rewrite lookup_union.
    destruct (data !! k), (bag !! k); done.
  - intros e He. cbn [rel_data]. by rewrite lookup_insert_ne.
  - intros id' Hne. by apply find_store_bag_ne.
Qed.

Lemma update_relation_data_leader_only_witness :
  BaseRequires._update_relation_data Scenario.requirer 1
    {[ "database" := "data_platform" ]}
    (Scenario.world_of [Scenario.relation_with 1 "database" ∅ ∅] false)
  = (Scenario.world_of [Scenario.relation_with 1 "database" ∅ ∅] false, Ok ()).
Proof.
  apply (update_relation_data_leader_only Scenario.requirer 1
           {[ "database" := "data_platform" ]}
           (Scenario.world_of [Scenario.relation_with 1 "database" ∅ ∅] false)).
  reflexivity.
Defined.

(** ZookeeperRequires: what the relation-joined handler writes. *)
Lemma zookeeper_joined_run (self : ZookeeperRequires.t)
    (event : RelationEvent) (w : World) (r : Relation)
    (bag : gmap string string) :
  is_leader w = true →
  find_relation (RelationEvent.relation event) (relations w) = Some r →
  rel_data r !! Application (BaseRequires.local_app (ZookeeperRequires.base self))
    = Some bag →
  ZookeeperRequires._on_relation_joined_event self event w
  = (store_bag (RelationEvent.relation event)
       (Application (BaseRequires.local_app (ZookeeperRequires.base self)))
       (match BaseRequires.extra_user_roles (ZookeeperRequires.base self) with
        | Some roles =>
            {[ "chroot" := ZookeeperRequires.chroot self;
               "extra-user-roles" := roles ]}
        | None => {[ "topic" := ZookeeperRequires.chroot self ]}
        end ∪ bag) w,
     Ok ()).
Proof.
  intros Hl Hr Hb. unfold ZookeeperRequires._on_relation_joined_event.
  rewrite _update_relation_data_run, Hl, relation_data_update_run, Hr, Hb.
  reflexivity.
Qed.

(** C9 at the failing input: with no extra user roles configured, the
    leader's relation-joined handler stores the chroot under the key
    [topic]; the key [chroot] stays absent. *)
Lemma zookeeper_joined_without_roles_writes_topic :
  ∃ w' r,
    ZookeeperRequires._on_relation_joined_event
      Scenario.zookeeper_without_roles Scenario.joined_event
      (Scenario.world_of [Scenario.relation_with 1 "database" ∅ ∅] true)
    = (w', Ok ())
    ∧ find_relation 1 (relations w') = Some r
    ∧ rel_data r !! Application "application"
      = Some ({[ "topic" := "/myapp" ]} : gmap string string)
    ∧ ({[ "topic" := "/myapp" ]} : gmap string string) !! "chroot" = None.
Proof.
  eexists _, _. split; [|split; [|split]].
  - apply (zookeeper_joined_run Scenario.zookeeper_without_roles
             Scenario.joined_event _
             (Scenario.relation_with 1 "database" ∅ ∅) ∅); reflexivity.
  - rewrite find_store_bag. reflexivity.
  - vm_compute. reflexivity.
  - reflexivity.
Qed.

End WriteProperties.

(** ** Events of DatabaseRequires *)

Section EventProperties.

Lemma _get_relation_alias_run (self : DatabaseRequires.t) (id : Z) (w : World) :
  DatabaseRequires._get_relation_alias self id w
  = (w, match find_relation id (relations w) with
        | Some r =>
            match rel_data r !! Unit (DatabaseRequires.local_unit self) with
            | Some bag => Ok (bag !! "alias")
            | None => Raise KeyError
            end
        | None => Ok None
        end).
Proof.
  cbv [DatabaseRequires._get_relation_alias mbind M_bind gets].
  destruct (find_relation id (relations w)) as [r|]; [|done].
  by destruct (rel_data r !! Unit _).
Qed.

(** Firing an event and its alias-qualified variant. *)
Lemma fire_run (self : DatabaseRequires.t) (event : RelationEvent)
    (kind : string) (w : World) :
  (emit kind event ;;
   DatabaseRequires._emit_aliased_event self event kind) w
  = let w2 := record_emission (emission kind event) w in
    match find_relation (RelationEvent.relation event) (relations w) with
    | None => (w2, Ok ())
    | Some r =>
        match rel_data r !! Unit (DatabaseRequires.local_unit self) with
        | None => (w2, Raise KeyError)
        | Some bag =>
            if truthy (bag !! "alias") then
              let name := default "" (bag !! "alias") +:+ "_" +:+ kind in
              if DatabaseRequires.has_event w name
              then (record_emission (emission name event) w2, Ok ())
              else (w2, Raise AttributeError)
            else (w2, Ok ())
        end
    end.
Proof.
  cbv [mbind M_bind emit modify DatabaseRequires._emit_aliased_event].
  rewrite _get_relation_alias_run.
  change (relations (record_emission (emission kind event) w))
    with (relations w).
  destruct (find_relation _ (relations w)) as [r|]; [|done].
  destruct (rel_data r !! Unit _) as [bag|]; [|done].
  destruct (truthy (bag !! "alias")); [|done].
  cbv [DatabaseRequires.emit_defined mbind M_bind gets emit modify].
  change (DatabaseRequires.has_event (record_emission ?e w) ?n)
    with (DatabaseRequires.has_event w n).
  by destruct (DatabaseRequires.has_event w _).
Qed.

(** The handler fires what the specification's classifier selects. *)
Lemma _on_relation_changed_event_run (self : DatabaseRequires.t)
    (event : RelationEvent) (w : World) :
  DatabaseRequires._on_relation_changed_event self event w
  = match BaseRequires._diff (DatabaseRequires.base self) event w with
    | (w1, Ok d) =>
        match spec_classify d with
        | Some kind =>
            (emit kind event ;;
             DatabaseRequires._emit_aliased_event self event kind) w1
        | None => (w1, Ok ())
        end
    | (w1, Raise e) => (w1, Raise e)
    end.
Proof.
  unfold DatabaseRequires._on_relation_changed_event.
  unfold mbind at 1. unfold M_bind at 1.
  destruct (BaseRequires._diff _ event w) as [w1 [d|e]]; [|done].
  unfold spec_classify.
  rewrite !bool_decide_and, !bool_decide_or.
  repeat match goal with
         | |- context [if ?b then _ else _] => destruct b eqn:?; cbn [andb orb]
         end; try done.
Qed.

Lemma _diff_ok_inv (self : BaseRequires.t) (event : RelationEvent)
    (w w1 : World) (d : Diff) :
  BaseRequires._diff self event w = (w1, Ok d) →
  ∃ r local text,
    find_relation (RelationEvent.relation event) (relations w) = Some r
    ∧ rel_data r !! Unit (BaseRequires.local_unit self) = Some local
    ∧ w1 = store_bag (RelationEvent.relation event)
             (Unit (BaseRequires.local_unit self))
             (dict_update {[ "data" := text ]} local) w.
Proof.
  rewrite _diff_run.
  destruct (find_relation _ (relations w)) as [r|] eqn:Hr; [|done].
  destruct (rel_data r !! Unit _) as [local|] eqn:Hl; [|done].
  destruct (loads _) as [old_json|]; [|done].
  destruct (rel_data r !! Application _) as [remote|] eqn:Ha; [|done].
  destruct (as_dict old_json) as [old_data|]; [|done].
  cbv zeta. intros [= <- _]. eauto 6.
Qed.

Lemma dict_update_data_alias (text : string) (local : gmap string string) :
  dict_update {[ "data" := text ]} local !! "alias" = local !! "alias".
Proof.
  unfold dict_update. rewrite lookup_union_r; [done|].
  by apply lookup_singleton_ne.
Qed.







(** C5, amended: for the kind [kind] a diff is classified as, the
    unqualified event is fired first; a relation without a persisted
    (non-empty) alias gets nothing more and no error; a relation with
    the persisted alias [alias] gets the event [<alias>_<kind>] next,
    with the same payload, exactly when that event exists on the events
    class, as it does for every alias the requirer was constructed with;
    when it does not exist, the handler raises [AttributeError] after
    the unqualified event and fires nothing more. *)
Theorem aliased_event_follows_unqualified (self : DatabaseRequires.t)
    (event : RelationEvent) (w w1 : World) (d : Diff) (kind : string)
    (r : Relation) (local : gmap string string) :
  find_relation (RelationEvent.relation event) (relations w) = Some r →
  rel_data r !! Unit (DatabaseRequires.local_unit self) = Some local →
  BaseRequires._diff (DatabaseRequires.base self) event w = (w1, Ok d) →
  spec_classify d = Some kind →
  let run := DatabaseRequires._on_relation_changed_event self event w in
  (truthy (local !! "alias") = false →
     run = (record_emission (emission kind event) w1, Ok ()))
  ∧ (∀ alias, local !! "alias" = Some alias → alias ≠ "" →
       let name := alias +:+ "_" +:+ kind in
       (DatabaseRequires.has_event w name = true →
          run = (record_emission (emission name event)
                   (record_emission (emission kind event) w1), Ok ()))
       ∧ (DatabaseRequires.has_event w name = false →
          run = (record_emission (emission kind event) w1,
                 Raise AttributeError))).
Proof.
  intros Hr Hl Hd Hk. cbv zeta.
  rewrite _on_relation_changed_event_run, Hd, Hk, fire_run. cbv zeta.
  pose proof (_diff_emitted (DatabaseRequires.base self) event w)
    as (_ & Hdef & _).
  rewrite Hd in Hdef. cbn [fst] in Hdef.
  apply _diff_ok_inv in Hd as (r' & local' & text & Hr' & Hl' & ->).
  unfold DatabaseRequires.local_unit in Hl.
  rewrite Hr in Hr'. injection Hr' as <-.
  rewrite Hl in Hl'. injection Hl' as <-.
  rewrite find_store_bag, Hr. cbn [fmap option_fmap option_map rel_data].
  unfold DatabaseRequires.local_unit.
  rewrite lookup_insert_eq, dict_update_data_alias.
  unfold DatabaseRequires.has_event in *. rewrite Hdef.
  split.
  - by intros ->.
  - intros alias Ha Hne. rewrite Ha. cbn [truthy from_option id].
    assert (String.eqb alias "" = false) as -> by by apply String.eqb_neq.
    cbn [negb]. by split; intros ->.
Qed.

Lemma aliased_event_follows_unqualified_witness :
  emitted
    (DatabaseRequires._on_relation_changed_event Scenario.database_requirer
       Scenario.changed_event Scenario.w_cluster1).1
  = [emission "database_created" Scenario.changed_event;
     emission "cluster1_database_created" Scenario.changed_event].
Proof.
  pose proof (aliased_event_follows_unqualified Scenario.database_requirer
    Scenario.changed_event Scenario.w_cluster1
    (BaseRequires._diff Scenario.requirer Scenario.changed_event
       Scenario.w_cluster1).1
    (mkDiff {[ "username"; "password"; "endpoints"; "read-only-endpoints" ]}
       ∅ ∅)
    "database_created" _ {[ "alias" := "cluster1" ]}
    eq_refl eq_refl) as H.
  destruct H as [_ H].
  - vm_compute. reflexivity.
  - vm_compute. reflexivity.
  - destruct (H "cluster1" eq_refl) as [H1 _]; [discriminate|].
    rewrite H1; [|vm_compute; reflexivity]. reflexivity.
Defined.

(** C5, as stated, fails: the relation has the persisted alias
    [cluster1], but the requirer was constructed without aliases, so the
    class has no event [cluster1_database_created]; the handler fires
    [database_created] alone and raises [AttributeError]. *)
Lemma aliased_event_missing_raises :
  let run :=
    DatabaseRequires._on_relation_changed_event Scenario.requirer_without_aliases
      Scenario.changed_event Scenario.w_alias_without_events in
  relation_alias "application/0" 1 Scenario.w_alias_without_events = Some "cluster1"
  ∧ run.2 = Raise AttributeError
  ∧ emitted run.1 = [emission "database_created" Scenario.changed_event].
Proof. vm_compute. repeat split; reflexivity. Qed.

(** [test_database_events]: credentials and endpoints published at once
    fire [database_created] only; endpoints and read-only endpoints
    changed at once fire [endpoints_changed] only; each is followed by
    its [cluster1] variant. *)
Example database_events_in_priority_order :
  let self := Scenario.database_requirer in
  let w1 :=
    (DatabaseRequires._on_relation_changed_event self Scenario.changed_event
       Scenario.w_cluster1).1 in
  let w2 :=
    (DatabaseRequires._on_relation_changed_event self Scenario.changed_event
       (Scenario.endpoints_update w1)).1 in
  em_name <$> emitted w2
  = ["database_created"; "cluster1_database_created";
     "endpoints_changed"; "cluster1_endpoints_changed"].
Proof. vm_compute. reflexivity. Qed.

End EventProperties.

(** ** Construction of DatabaseRequires *)

Section ConstructionProperties.

Variable isidentifier : string → bool.

Lemma define_event_run (event_kind : string) (w : World) :
  DatabaseRequires.define_event isidentifier event_kind w
  = if negb (isidentifier event_kind) then (w, Raise RuntimeError)
    else if DatabaseRequires.has_event w event_kind
    then (w, Raise RuntimeError)
    else (add_event event_kind w, Ok ()).
Proof.
  unfold DatabaseRequires.define_event.
  destruct (negb (isidentifier event_kind)); [done|].
  cbv [mbind M_bind gets]. by destruct (DatabaseRequires.has_event w _).
Qed.

Lemma define_alias_events_no_ValueError (aliases : list string) (w : World) :
  (DatabaseRequires.define_alias_events isidentifier aliases w).2
  ≠ Raise ValueError.
Proof.
  revert w. induction aliases as [|a rest IH]; intros w; [done|].
  cbn [DatabaseRequires.define_alias_events]. cbv [mbind M_bind].
  repeat (rewrite define_event_run;
          match goal with
          | |- context [negb ?b] => destruct (negb b); [done|]
          end;
          match goal with
          | |- context [DatabaseRequires.has_event ?w ?n] =>
              destruct (DatabaseRequires.has_event w n); [done|]
          end).
  apply IH.
Qed.

Lemma has_relation_events_requires (charm : Charm) (relation_name : string)
    (limit : option Z) :
  meta_requires charm !! relation_name = Some limit →
  BaseRequires.has_relation_events charm relation_name = true.
Proof.
  intros H. unfold BaseRequires.has_relation_events.
  rewrite bool_decide_eq_true_2; [done|]. apply elem_of_dom. eauto.
Qed.

(** C7: constructing with a non-empty alias list whose length is not the
    declared limit of the relation raises [ValueError] before anything
    is defined; constructing with no aliases succeeds; a list of the
    declared length never raises [ValueError]. *)
Theorem init_checks_alias_count (charm : Charm)
    (relation_name database_name : string) (extra_user_roles : option string)
    (relations_aliases : option (list string)) (w : World) :
  let run :=
    DatabaseRequires.__init__ isidentifier charm relation_name database_name
      extra_user_roles relations_aliases w in
  let count := Z.of_nat (length (default [] relations_aliases)) in
  (∀ limit,
     truthy_list relations_aliases = true →
     meta_requires charm !! relation_name = Some limit →
     Some count ≠ limit →
     run = (w, Raise ValueError))
  ∧ (truthy_list relations_aliases = false →
     BaseRequires.has_relation_events charm relation_name = true →
     ∃ self, run = (w, Ok self)
             ∧ DatabaseRequires.relations_aliases self = relations_aliases)
  ∧ ((truthy_list relations_aliases = false
      ∨ meta_requires charm !! relation_name = Some (Some count)) →
     run.2 ≠ Raise ValueError).
Proof.
  cbv zeta. unfold DatabaseRequires.__init__, BaseRequires.__init__.
  cbv [mbind M_bind mret M_ret raise]. split; [|split].
  - intros limit -> Hm Hne.
    rewrite (has_relation_events_requires _ _ _ Hm), Hm.
    by rewrite bool_decide_eq_true_2.
  - intros -> ->. eexists. split; reflexivity.
  - intros H.
    destruct (BaseRequires.has_relation_events charm relation_name); [|done].
    destruct H as [->| ->]; [done|].
    destruct (truthy_list relations_aliases); [|done].
    rewrite bool_decide_eq_false_2 by (intros H; by apply H).
    pose proof (define_alias_events_no_ValueError
                  (default [] relations_aliases) w) as H.
    destruct (DatabaseRequires.define_alias_events _ _ w) as [w' [[]|e]];
      [done|]. cbn in *. congruence.
Qed.

(** *** What a successful construction establishes *)

Lemma define_event_ok (event_kind : string) (w w' : World) :
  DatabaseRequires.define_event isidentifier event_kind w = (w', Ok ()) →
  DatabaseRequires.has_event w event_kind = false
  ∧ w' = add_event event_kind w.
Proof.
  rewrite define_event_run. destruct (negb _); [done|].
  destruct (DatabaseRequires.has_event w event_kind); [done|].
  by intros [= <-].
Qed.

Lemma has_event_add_event (event_kind name : string) (w : World) :
  DatabaseRequires.has_event (add_event event_kind w) name
  = bool_decide (name = event_kind) || DatabaseRequires.has_event w name.
Proof.
  unfold DatabaseRequires.has_event, add_event. cbn [defined_events].
  repeat case_bool_decide; try done; set_solver.
Qed.

Lemma define_alias_events_ok (aliases : list string) :
  ∀ w w',
    DatabaseRequires.define_alias_events isidentifier aliases w = (w', Ok ()) →
    relations w' = relations w
    ∧ is_leader w' = is_leader w
    ∧ emitted w' = emitted w
    ∧ (∀ name, DatabaseRequires.has_event w name = true →
               DatabaseRequires.has_event w' name = true)
    ∧ (∀ alias, alias ∈ aliases →
         DatabaseRequires.has_event w (alias +:+ "_database_created") = false
         ∧ alias ≠ "read_only")
    ∧ (∀ alias kind, alias ∈ aliases →
         kind ∈ DatabaseRequires.static_events →
         DatabaseRequires.has_event w' (alias +:+ "_" +:+ kind) = true)
    ∧ NoDup aliases.
Proof.
  induction aliases as [|a rest IH]; intros w w'.
  - intros [= <-]. do 4 (split; [done|]). split; [|split].
    + by intros ? ?%elem_of_nil.
    + by intros ? ? ?%elem_of_nil.
    + constructor.
  - cbn [DatabaseRequires.define_alias_events]. cbv [mbind M_bind].
    destruct (DatabaseRequires.define_event _ (a +:+ "_database_created") w)
      as [w1 [[]|]] eqn:H1; [|done].
    destruct (DatabaseRequires.define_event _ (a +:+ "_endpoints_changed") w1)
      as [w2 [[]|]] eqn:H2; [|done].
    destruct (DatabaseRequires.define_event _
                (a +:+ "_read_only_endpoints_changed") w2)
      as [w3 [[]|]] eqn:H3; [|done].
    apply define_event_ok in H1 as [Hn1 ->].
    apply define_event_ok in H2 as [Hn2 ->].
    apply define_event_ok in H3 as [Hn3 ->].
    intros Hrest.
    destruct (IH _ _ Hrest) as (Hr & Hl & He & Hmono & Hfresh & Hdef & Hnd).
    assert (Hmono3 : ∀ name, DatabaseRequires.has_event w name = true →
              DatabaseRequires.has_event w' name = true).
    { intros name Hname. apply Hmono.
      rewrite !has_event_add_event, Hname. by rewrite !orb_true_r. }
    split; [done|]. split; [done|]. split; [done|]. split; [exact Hmono3|].
    split; [|split].
    + intros alias [->|Hin]%elem_of_cons.
      * split; [done|]. intros ->.
        rewrite has_event_add_event in Hn2. cbn in Hn2.
        apply orb_false_elim in Hn2 as [_ Hn2].
        unfold DatabaseRequires.has_event in Hn2.
        by rewrite bool_decide_eq_true_2 in Hn2
          by (unfold DatabaseRequires.static_events; set_solver).
      * destruct (Hfresh alias Hin) as [Hf Hne]. split; [|done].
        rewrite !has_event_add_event in Hf.
        by do 3 (apply orb_false_elim in Hf as [_ Hf]).
    + intros alias kind [->|Hin]%elem_of_cons Hkind; [|by apply Hdef].
      apply Hmono. rewrite !has_event_add_event.
      unfold DatabaseRequires.static_events in Hkind.
      repeat (apply elem_of_cons in Hkind as [->|Hkind]);
        [| | |by apply elem_of_nil in Hkind];
        match goal with
        | |- context ["_" +:+ ?k] =>
            let v := eval vm_compute in ("_" +:+ k) in
            change ("_" +:+ k) with v
        end;
        match goal with
        | |- context [bool_decide (?x = ?x)] =>
            rewrite (bool_decide_eq_true_2 (x = x)) by done
        end;
        by rewrite ?orb_true_r.
    + constructor; [|done]. intros Hin.
      destruct (Hfresh a Hin) as [Hf _].
      rewrite !has_event_add_event in Hf.
      rewrite (bool_decide_eq_true_2
                 (a +:+ "_database_created" = a +:+ "_database_created"))
        in Hf by done.
      by rewrite !orb_true_r in Hf.
Qed.

(** A requirer that was constructed has distinct aliases, as many as the
    relation's limit, none of them [read_only], and the class has the
    three events of each alias. *)
Lemma init_ok (charm : Charm) (relation_name database_name : string)
    (extra_user_roles : option string) (pool : list string)
    (w w' : World) (self : DatabaseRequires.t) :
  pool ≠ [] →
  DatabaseRequires.__init__ isidentifier charm relation_name database_name
    extra_user_roles (Some pool) w = (w', Ok self) →
  DatabaseRequires.relations_aliases self = Some pool
  ∧ meta_requires charm !! relation_name = Some (Some (Z.of_nat (length pool)))
  ∧ NoDup pool
  ∧ ("read_only" ∉ pool)
  ∧ (∀ alias kind, alias ∈ pool → kind ∈ DatabaseRequires.static_events →
       DatabaseRequires.has_event w' (alias +:+ "_" +:+ kind) = true)
  ∧ relations w' = relations w.
Proof.
  intros Hne. unfold DatabaseRequires.__init__, BaseRequires.__init__.
  cbv [mbind M_bind mret M_ret raise].
  destruct (BaseRequires.has_relation_events charm relation_name); [|done].
  destruct pool as [|a pool]; [done|]. cbn [truthy_list from_option id].
  destruct (meta_requires charm !! relation_name) as [limit|]; [|done].
  case_bool_decide as Hlim; [done|].
  destruct (DatabaseRequires.define_alias_events _ _ w) as [w1 [[]|]] eqn:Hd;
    [|done].
  intros [= <- <-].
  destruct (define_alias_events_ok _ _ _ Hd)
    as (Hr & _ & _ & _ & Hfresh & Hdef & Hnd).
  split; [done|]. split.
  { f_equal. destruct (decide (Some (Z.of_nat (length (a :: pool))) = limit));
      [done|by destruct Hlim]. }
  split; [done|]. split; [|done].
  intros Hin. by destruct (Hfresh _ Hin) as [_ ?].
Qed.

End ConstructionProperties.

Lemma init_checks_alias_count_witness :
  DatabaseRequires.__init__ (λ _, true) Scenario.charm "database"
    "data_platform" None (Some ["cluster1"]) (Scenario.world_of [] true)
  = (Scenario.world_of [] true, Raise ValueError).
Proof.
  apply (init_checks_alias_count (λ _, true) Scenario.charm "database"
           "data_platform" None (Some ["cluster1"])
           (Scenario.world_of [] true)) with (limit := Some 2%Z).
  - reflexivity.
  - reflexivity.
  - discriminate.
Defined.

(** ** Alias assignment *)

Section AliasProperties.

Lemma filter_all {A} (P : A → Prop) `{!∀ x, Decision (P x)} (l : list A) :
  (∀ a, a ∈ l → P a) → filter P l = l.
Proof.
  induction l as [|y l IH]; intros Hall; [done|].
  rewrite filter_cons_True by (apply Hall; by left).
  f_equal. apply IH. intros a Ha. apply Hall. by right.
Qed.

Lemma omap_length_le {A B} (f : A → option B) (l : list A) :
  (length (omap f l) ≤ length l)%nat.
Proof.
  induction l as [|y l IH]; [done|].
  cbn [omap list_omap length]. destruct (f y); cbn [length]; lia.
Qed.

Lemma list_remove_spec (x : string) (l : list string) :
  x ∈ l →
  ∃ l', list_remove x l = Ok l'
        ∧ l ≡ₚ x :: l'
        ∧ (NoDup l → l' = filter (λ a, a ≠ x) l).
Proof.
  induction l as [|y l IH]; [by intros ?%elem_of_nil|].
  intros Hx. cbn [list_remove]. destruct (decide (x = y)) as [->|Hne].
  - exists l. split; [done|]. split; [done|].
    intros [Hy _]%NoDup_cons. rewrite filter_cons_False by (intros H; by apply H).
    symmetry. apply filter_all. intros a Ha ->. done.
  - apply elem_of_cons in Hx as [?|Hx]; [done|].
    destruct (IH Hx) as (l' & -> & Hp & Hf). exists (y :: l').
    split; [done|]. split.
    + rewrite Hp. apply Permutation_swap.
    + intros [_ Hnd]%NoDup_cons. rewrite filter_cons_True by done.
      by rewrite Hf.
Qed.

Lemma persisted_alias_truthy (lu : string) (r : Relation)
    (bag : gmap string string) :
  rel_data r !! Unit lu = Some bag →
  (truthy (bag !! "alias") = true →
     persisted_alias lu r = Some (default "" (bag !! "alias")))
  ∧ (truthy (bag !! "alias") = false → persisted_alias lu r = None).
Proof.
  intros Hb. unfold persisted_alias. rewrite Hb.
  split; intros Ht; rewrite Ht; [|done].
  by destruct (bag !! "alias").
Qed.

(** The loop removes exactly the persisted aliases. *)
Lemma remove_assigned_spec (lu : string) (rels : list Relation) :
  Forall (λ r, is_Some (rel_data r !! Unit lu)) rels →
  NoDup (assigned_aliases lu rels) →
  ∀ available,
    assigned_aliases lu rels ⊆ available →
    ∃ rest,
      DatabaseRequires.remove_assigned lu rels available = Ok rest
      ∧ available ≡ₚ assigned_aliases lu rels ++ rest
      ∧ (NoDup available →
         rest = filter (λ a, a ∉ assigned_aliases lu rels) available).
Proof.
  unfold assigned_aliases.
  induction rels as [|r rels IH]; intros Hbags Hnd available Hsub.
  - exists available. split; [done|]. split; [done|]. intros _.
    symmetry. apply filter_all. intros a _. apply not_elem_of_nil.
  - apply Forall_cons in Hbags as [[bag Hb] Hbags].
    cbn [DatabaseRequires.remove_assigned]. rewrite Hb.
    destruct (persisted_alias_truthy lu r bag Hb) as [Ht Hf].
    cbn [omap list_omap] in *.
    destruct (truthy (bag !! "alias")).
    + rewrite Ht in * by done. set (a := default "" (bag !! "alias")) in *.
      apply NoDup_cons in Hnd as [Ha Hnd].
      destruct (list_remove_spec a available) as (avail1 & -> & Hp & Hfl).
      { apply Hsub. by left. }
      cbn [mbind result_bind].
      destruct (IH Hbags Hnd avail1) as (rest & -> & Hp' & Hfl').
      { intros x Hx. assert (x ∈ a :: avail1) as Hin.
        { rewrite <- Hp. apply Hsub. by right. }
        apply elem_of_cons in Hin as [->|?]; done. }
      exists rest. split; [done|]. split.
      * by rewrite Hp, Hp'.
      * intros Hnda. rewrite Hfl', Hfl by (by rewrite ?Hfl; try apply NoDup_filter).
        rewrite list_filter_filter. apply list_filter_iff. intros x.
        rewrite not_elem_of_cons. tauto.
    + rewrite Hf in * by done. by apply IH.
Qed.

Lemma omap_length_lt {A B} (f : A → option B) (l : list A) (x : A) :
  x ∈ l → f x = None → (length (omap f l) < length l)%nat.
Proof.
  intros Hx Hf. induction l as [|y l IH]; [by apply elem_of_nil in Hx|].
  pose proof (omap_length_le f l) as Hle. cbn [omap list_omap length].
  apply elem_of_cons in Hx as [<-|Hx].
  - rewrite Hf. lia.
  - specialize (IH Hx). destruct (f y); cbn [length]; lia.
Qed.

Lemma _assign_relation_alias_run (self : DatabaseRequires.t) (id : Z)
    (w : World) :
  DatabaseRequires._assign_relation_alias self id w
  = if negb (truthy_list (DatabaseRequires.relations_aliases self))
    then (w, Ok ())
    else
      match find_relation id (relations w) with
      | None => (w, Raise ModelError)
      | Some r =>
      match rel_data r !! Unit (DatabaseRequires.local_unit self) with
      | None => (w, Raise KeyError)
      | Some bag =>
          if truthy (bag !! "alias") then (w, Ok ())
          else
            match DatabaseRequires.remove_assigned
                    (DatabaseRequires.local_unit self) (relations w)
                    (default [] (DatabaseRequires.relations_aliases self))
            with
            | Raise e => (w, Raise e)
            | Ok available_aliases =>
                match list_first available_aliases with
                | Raise e => (w, Raise e)
                | Ok first =>
                    (store_bag id (Unit (DatabaseRequires.local_unit self))
                       (dict_update {[ "alias" := first ]} bag) w,
                     Ok ())
                end
            end
      end end.
Proof.
  unfold DatabaseRequires._assign_relation_alias.
  destruct (negb _); [done|].
  cbv [mbind M_bind gets lift]. rewrite relation_data_run.
  destruct (find_relation id (relations w)) as [r|] eqn:Hr; [|done].
  destruct (rel_data r !! Unit _) as [bag|] eqn:Hb; [|done].
  destruct (truthy _); [done|].
  destruct (DatabaseRequires.remove_assigned _ _ _) as [available|]; [|done].
  destruct (list_first available) as [first|]; [|done].
  by rewrite relation_data_update_run, Hr, Hb.
Qed.

(** Under the preconditions of C10 the loop succeeds and leaves an alias. *)
Lemma remove_assigned_leaves_one (lu : string) (rels : list Relation)
    (pool : list string) (r : Relation) :
  r ∈ rels →
  persisted_alias lu r = None →
  Forall (λ r, is_Some (rel_data r !! Unit lu)) rels →
  (length rels ≤ length pool)%nat →
  NoDup (assigned_aliases lu rels) →
  assigned_aliases lu rels ⊆ pool →
  ∃ available first,
    DatabaseRequires.remove_assigned lu rels pool = Ok available
    ∧ list_first available = Ok first
    ∧ (NoDup pool → first_free pool (assigned_aliases lu rels) = Some first).
Proof.
  intros Hr Hnone Hbags Hlen Hnd Hsub.
  destruct (remove_assigned_spec lu rels Hbags Hnd pool Hsub)
    as (rest & Hrun & Hp & Hf).
  pose proof (omap_length_lt (persisted_alias lu) rels r Hr Hnone) as Hlt.
  apply Permutation_length in Hp. rewrite length_app in Hp.
  fold (assigned_aliases lu rels) in Hlt.
  destruct rest as [|first rest]; [cbn in Hp; lia|].
  exists (first :: rest), first. split; [done|]. split; [done|].
  intros Hndp. unfold first_free. by rewrite <- (Hf Hndp).
Qed.

(** C10: with no more relations than configured aliases, and the
    persisted aliases distinct members of the configured list,
    [_assign_relation_alias] returns normally: every removal succeeds
    and an alias is left when the first one is taken. *)
Theorem assign_relation_alias_total (self : DatabaseRequires.t) (id : Z)
    (w : World) (r : Relation) :
  let lu := DatabaseRequires.local_unit self in
  let pool := default [] (DatabaseRequires.relations_aliases self) in
  find_relation id (relations w) = Some r →
  Forall (λ r, is_Some (rel_data r !! Unit lu)) (relations w) →
  (length (relations w) ≤ length pool)%nat →
  NoDup (assigned_aliases lu (relations w)) →
  assigned_aliases lu (relations w) ⊆ pool →
  (∃ w', DatabaseRequires._assign_relation_alias self id w = (w', Ok ()))
  ∧ (persisted_alias lu r = None →
     ∃ available first,
       DatabaseRequires.remove_assigned lu (relations w) pool = Ok available
       ∧ list_first available = Ok first).
Proof.
  intros lu pool Hr Hbags Hlen Hnd Hsub.
  pose proof (find_relation_elem _ _ _ Hr) as Hin.
  assert (Hleave : persisted_alias lu r = None →
            ∃ available first,
              DatabaseRequires.remove_assigned lu (relations w) pool
              = Ok available
              ∧ list_first available = Ok first).
  { intros Hnone.
    destruct (remove_assigned_leaves_one lu (relations w) pool r)
      as (available & first & ? & ? & _); eauto. }
  split; [|exact Hleave].
  rewrite _assign_relation_alias_run.
  destruct (negb _); [eauto|]. rewrite Hr.
  pose proof (proj1 (Forall_forall _ _) Hbags r Hin) as [bag Hb].
  fold lu. rewrite Hb.
  destruct (persisted_alias_truthy lu r bag Hb) as [_ Hf].
  destruct (truthy (bag !! "alias")); [eauto|].
  destruct (Hleave (Hf eq_refl)) as (available & first & Hrun & Hfirst).
  fold pool. rewrite Hrun, Hfirst. eauto.
Qed.


Lemma assign_relation_alias_total_witness :
  ∃ w', DatabaseRequires._assign_relation_alias Scenario.database_requirer 2
          Scenario.w_second_unassigned = (w', Ok ()).
Proof.
  apply (assign_relation_alias_total Scenario.database_requirer 2
           Scenario.w_second_unassigned
           (Scenario.relation_with 2 "another-database" ∅ ∅)).
  - reflexivity.
  - repeat (constructor; [eexists; vm_compute; reflexivity|]). constructor.
  - cbn. lia.
  - change (NoDup ["cluster1"]). apply NoDup_singleton.
  - change (["cluster1"] ⊆ ["cluster1"; "cluster2"]). set_solver.
Defined.



(** [test_assign_relation_alias], with the pool [a], [b]: assigning to
    two relations in order gives [a] to the first and [b] to the second,
    and assigning again changes nothing. *)
Example assign_in_pool_order :
  let self :=
    DatabaseRequires.mk Scenario.requirer "data_platform" (Some ["a"; "b"]) in
  let w1 :=
    (DatabaseRequires._assign_relation_alias self 1
       Scenario.w_two_relations).1 in
  let w2 := (DatabaseRequires._assign_relation_alias self 2 w1).1 in
  persisted_alias "application/0" <$> relations w2 = [Some "a"; Some "b"]
  ∧ DatabaseRequires._assign_relation_alias self 1 w2 = (w2, Ok ())
  ∧ DatabaseRequires._assign_relation_alias self 2 w2 = (w2, Ok ()).
Proof. vm_compute. repeat split; reflexivity. Qed.

End AliasProperties.

(** ** More about [_diff] *)

Section MoreDiffProperties.

Lemma find_relation_id' (id : Z) (rs : list Relation) (r : Relation) :
  find_relation id rs = Some r → rel_id r = id.
Proof.
  unfold find_relation. intros H. apply find_some in H as [_ H].
  by apply bool_decide_eq_true in H.
Qed.

Lemma alter_relation_same (id : Z) (f : Relation → Relation)
    (rs : list Relation) :
  (∀ r, find_relation id rs = Some r → f r = r) →
  alter_relation id f rs = rs.
Proof.
  unfold find_relation. induction rs as [|r rs IH]; intros Hf; [done|].
  cbn [alter_relation List.find] in *.
  destruct (bool_decide (rel_id r = id)).
  - by rewrite Hf.
  - by rewrite IH.
Qed.

Lemma store_bag_same (id : Z) (e : Entity) (bag : gmap string string)
    (w : World) (r : Relation) :
  find_relation id (relations w) = Some r →
  rel_data r !! e = Some bag →
  store_bag id e bag w = w.
Proof.
  intros Hr Hb. destruct w as [rs l d em]. unfold store_bag, set_relations.
  cbn [relations is_leader defined_events emitted] in *. f_equal.
  apply alter_relation_same. intros r' Hr'.
  rewrite Hr in Hr'. injection Hr' as <-. destruct r as [i data].
  cbn [rel_id rel_data] in *. f_equal. by apply insert_id.
Qed.

Lemma dict_update_data_same (text : string) (local : gmap string string) :
  local !! "data" = Some text →
  dict_update {[ "data" := text ]} local = local.
Proof.
  intros H. unfold dict_update. rewrite <- insert_union_singleton_l.
  by apply insert_id.
Qed.

Lemma not_data_in_snapshot (remote : gmap string string) :
  "data" ∉ dom (filter (λ kv : string * string, kv.1 ≠ "data") remote).
Proof.
  intros [v Hv]%elem_of_dom. apply map_lookup_filter_Some in Hv as [_ Hv].
  by apply Hv.
Qed.

Lemma snapshot_lookup (remote : gmap string string) (k : string) :
  k ≠ "data" →
  filter (λ kv : string * string, kv.1 ≠ "data") remote !! k = remote !! k.
Proof.
  intros Hk. destruct (remote !! k) as [v|] eqn:Hv.
  - by apply map_lookup_filter_Some.
  - apply map_lookup_filter_None. by left.
Qed.

(** A world whose stored baseline is the current snapshot: [_diff]
    reports nothing and changes nothing. *)
Lemma _diff_at_baseline (self : BaseRequires.t) (event : RelationEvent)
    (w : World) (r : Relation) (local remote : gmap string string) :
  find_relation (RelationEvent.relation event) (relations w) = Some r →
  rel_data r !! Unit (BaseRequires.local_unit self) = Some local →
  rel_data r !! Application (RelationEvent.app event) = Some remote →
  local !! "data" = Some (dumps (filter (λ kv, kv.1 ≠ "data") remote)) →
  BaseRequires._diff self event w = (w, Ok (mkDiff ∅ ∅ ∅)).
Proof.
  intros Hr Hl Ha Hd. rewrite _diff_run, Hr, Hl, Hd. cbn [from_option id].
  set (new_data := filter (λ kv : string * string, kv.1 ≠ "data") remote) in *.
  pose proof (loads_dumps_dict new_data) as Hrt.
  destruct (loads (dumps new_data)) as [j|]; [|done].
  cbn [mbind result_bind] in Hrt. rewrite Ha, Hrt. cbv zeta. fold new_data.
  rewrite (dict_update_data_same _ _ Hd), (store_bag_same _ _ _ _ _ Hr Hl).
  do 2 f_equal. rewrite dom_fmap_L. f_equal; [set_solver| |set_solver].
  apply set_eq. intros k. rewrite elem_of_filter, value_differs_same.
  set_solver.
Qed.

Lemma store_bag_ids (id : Z) (e : Entity) (bag : gmap string string)
    (w : World) :
  rel_id <$> relations (store_bag id e bag w) = rel_id <$> relations w.
Proof.
  unfold store_bag, set_relations. cbn [relations].
  induction (relations w) as [|x xs IH]; [done|].
  cbn [alter_relation]. destruct (bool_decide (rel_id x = id)).
  - reflexivity.
  - rewrite !fmap_cons. by rewrite IH.
Qed.

(** X1: a [_diff] that returns writes nothing but the [data] key of
    the local unit's databag of the event's relation: leadership, the
    emitted and the defined events, the ids of the relations, every
    other relation, every other databag of the relation and every other
    key of that databag are as before. *)
Theorem diff_writes_only_the_baseline (self : BaseRequires.t)
    (event : RelationEvent) (w w1 : World) (d : Diff) :
  BaseRequires._diff self event w = (w1, Ok d) →
  is_leader w1 = is_leader w
  ∧ emitted w1 = emitted w
  ∧ defined_events w1 = defined_events w
  ∧ rel_id <$> relations w1 = rel_id <$> relations w
  ∧ (∀ id, id ≠ RelationEvent.relation event →
       find_relation id (relations w1) = find_relation id (relations w))
  ∧ ∃ r r1 local local1,
      find_relation (RelationEvent.relation event) (relations w) = Some r
      ∧ find_relation (RelationEvent.relation event) (relations w1) = Some r1
      ∧ (∀ e, e ≠ Unit (BaseRequires.local_unit self) →
           rel_data r1 !! e = rel_data r !! e)
      ∧ rel_data r !! Unit (BaseRequires.local_unit self) = Some local
      ∧ rel_data r1 !! Unit (BaseRequires.local_unit self) = Some local1
      ∧ ∀ k, k ≠ "data" → local1 !! k = local !! k.
Proof.
  intros H. apply _diff_ok_inv in H as (r & local & text & Hr & Hl & ->).
  do 3 (split; [done|]). split; [|split].
  - apply store_bag_ids.
  - intros id Hid. by apply find_store_bag_ne.
  - eexists r, _, local, _. split; [done|]. rewrite find_store_bag, Hr.
    split; [reflexivity|]. cbn [rel_data]. split; [|split; [done|split]].
    + intros e He. by rewrite lookup_insert_ne.
    + by rewrite lookup_insert_eq.
    + intros k Hk. unfold dict_update. rewrite lookup_union_r; [done|].
      by apply lookup_singleton_ne.
Qed.

Lemma diff_writes_only_the_baseline_witness :
  emitted (BaseRequires._diff Scenario.requirer Scenario.changed_event
             Scenario.w_cluster1).1 = [].
Proof.
  refine (proj1 (proj2 (diff_writes_only_the_baseline Scenario.requirer
            Scenario.changed_event Scenario.w_cluster1 _
            (mkDiff {[ "username"; "password"; "endpoints";
                       "read-only-endpoints" ]} ∅ ∅) _))).
  vm_compute. reflexivity.
Defined.

(** X2: when the stored baseline is JSON but not an object (a list, a
    number, a string, ...), [_diff] raises [AttributeError] at
    [old_data.keys()] and writes nothing. *)
Theorem diff_baseline_not_an_object (self : BaseRequires.t)
    (event : RelationEvent) (w : World) (r : Relation)
    (local remote : gmap string string) (text : string) (j : json) :
  find_relation (RelationEvent.relation event) (relations w) = Some r →
  rel_data r !! Unit (BaseRequires.local_unit self) = Some local →
  rel_data r !! Application (RelationEvent.app event) = Some remote →
  local !! "data" = Some text →
  loads text = Ok j →
  (∀ members, j ≠ JObj members) →
  BaseRequires._diff self event w = (w, Raise AttributeError).
Proof.
  intros Hr Hl Ha Hd Hj Hno. rewrite _diff_run, Hr, Hl, Hd.
  cbn [from_option id]. rewrite Hj, Ha.
  destruct j; try done. by destruct (Hno members).
Qed.

Lemma diff_baseline_not_an_object_witness :
  BaseRequires._diff Scenario.requirer Scenario.changed_event
    MoreScenarios.w_list_baseline
  = (MoreScenarios.w_list_baseline, Raise AttributeError).
Proof.
  apply (diff_baseline_not_an_object Scenario.requirer Scenario.changed_event
           MoreScenarios.w_list_baseline
           (Scenario.relation_with 1 "database" Scenario.credentials
              {[ "data" := "[]" ]})
           {[ "data" := "[]" ]} Scenario.credentials "[]" (JArr [])).
  - reflexivity.
  - reflexivity.
  - reflexivity.
  - reflexivity.
  - reflexivity.
  - discriminate.
Defined.

(** X3: the key [data] is never reported as added or changed,
    whatever the remote application's databag holds under it. *)
Theorem diff_never_reports_data_key (self : BaseRequires.t)
    (event : RelationEvent) (w w1 : World) (d : Diff) :
  BaseRequires._diff self event w = (w1, Ok d) →
  ("data" ∉ added d) ∧ ("data" ∉ changed d).
Proof.
  rewrite _diff_run.
  destruct (find_relation _ (relations w)) as [r|]; [|done].
  destruct (rel_data r !! Unit _) as [local|]; [|done].
  destruct (loads _) as [old_json|]; [|done].
  destruct (rel_data r !! Application _) as [remote|]; [|done].
  destruct (as_dict old_json) as [old_data|]; [|done].
  cbv zeta. intros [= _ <-]. cbn [added changed].
  pose proof (not_data_in_snapshot remote). set_solver.
Qed.

Lemma diff_never_reports_data_key_witness :
  ("data" ∉ added (mkDiff {[ "username"; "password" ]} ∅ ∅))
  ∧ ("data" ∉ changed (mkDiff {[ "username"; "password" ]} ∅ ∅)).
Proof.
  apply (diff_never_reports_data_key Scenario.requirer Scenario.changed_event
           Scenario.w_fresh
           (BaseRequires._diff Scenario.requirer Scenario.changed_event
              Scenario.w_fresh).1).
  vm_compute. reflexivity.
Defined.

(** What a returning [_diff] read and wrote. *)
Lemma _diff_ok_snapshot (self : BaseRequires.t) (event : RelationEvent)
    (w w1 : World) (d : Diff) :
  BaseRequires._diff self event w = (w1, Ok d) →
  ∃ r local remote,
    find_relation (RelationEvent.relation event) (relations w) = Some r
    ∧ rel_data r !! Unit (BaseRequires.local_unit self) = Some local
    ∧ rel_data r !! Application (RelationEvent.app event) = Some remote
    ∧ w1 = store_bag (RelationEvent.relation event)
             (Unit (BaseRequires.local_unit self))
             (dict_update
                {[ "data" := dumps (filter (λ kv, kv.1 ≠ "data") remote) ]}
                local) w.
Proof.
  rewrite _diff_run.
  destruct (find_relation _ (relations w)) as [r|] eqn:Hr; [|done].
  destruct (rel_data r !! Unit _) as [local|] eqn:Hl; [|done].
  destruct (loads _) as [old_json|]; [|done].
  destruct (rel_data r !! Application _) as [remote|] eqn:Ha; [|done].
  destruct (as_dict old_json) as [old_data|]; [|done].
  cbv zeta. intros [= <- _]. eauto 8.
Qed.

(** A [_diff] that follows a returning [_diff] and an update of the
    remote application's databag compares the two snapshots. *)
Lemma _diff_after_update (self : BaseRequires.t)
    (event : RelationEvent) (w w1 : World) (d1 : Diff) (r : Relation)
    (remote remote' : gmap string string) :
  BaseRequires._diff self event w = (w1, Ok d1) →
  find_relation (RelationEvent.relation event) (relations w) = Some r →
  rel_data r !! Application (RelationEvent.app event) = Some remote →
  let before := filter (λ kv, kv.1 ≠ "data") remote in
  let after := filter (λ kv, kv.1 ≠ "data") remote' in
  ∃ w3 d,
    BaseRequires._diff self event
      (store_bag (RelationEvent.relation event)
         (Application (RelationEvent.app event)) remote' w1)
    = (w3, Ok d)
    ∧ emitted w3 = emitted w
    ∧ added d = dom after ∖ dom before
    ∧ deleted d = dom before ∖ dom after
    ∧ ∀ k, k ∈ changed d ↔
        ∃ v v', before !! k = Some v ∧ after !! k = Some v' ∧ v ≠ v'.
Proof.
  intros Hd Hr Ha before after.
  apply _diff_ok_snapshot in Hd as (r' & local & remote0 & Hr' & Hl & Ha' & ->).
  rewrite Hr in Hr'. injection Hr' as <-.
  rewrite Ha in Ha'. injection Ha' as <-. fold before.
  rewrite _diff_run, !find_store_bag, Hr.
  cbn [fmap option_fmap option_map rel_data].
  rewrite lookup_insert_ne, lookup_insert_eq, dict_update_data by done.
  cbn [from_option id].
  pose proof (loads_dumps_dict before) as Hrt.
  destruct (loads (dumps before)) as [j|]; [|done].
  cbn [mbind result_bind] in Hrt. rewrite lookup_insert_eq, Hrt.
  cbv zeta. fold after. eexists _, _. split; [reflexivity|].
  split; [done|].
  cbn [added changed deleted]. rewrite dom_fmap_L.
  split; [done|]. split; [done|]. intros k.
  rewrite elem_of_filter. unfold value_differs. rewrite lookup_fmap. split.
  - intros [Hv _]. destruct (before !! k) as [v|]; [|done].
    destruct (after !! k) as [v'|]; [|done]. cbn in Hv.
    exists v, v'. repeat split. apply Is_true_true, negb_true_iff in Hv.
    by apply String.eqb_neq.
  - intros (v & v' & Hb & Haf & Hne). rewrite Hb, Haf. cbn. split.
    + apply Is_true_true, negb_true_iff. by apply String.eqb_neq.
    + apply elem_of_intersection; split; apply elem_of_dom; eauto.
Qed.

(** X4: after a [_diff] that returned and an update of the remote
    application's databag, the next [_diff] returns and compares the two
    databags without their [data] key: [added] and [deleted] are the
    differences of their key sets, [changed] the common keys whose values
    differ. *)
Theorem diff_reports_the_update (self : BaseRequires.t)
    (event : RelationEvent) (w w1 : World) (d1 : Diff) (r : Relation)
    (remote remote' : gmap string string) :
  BaseRequires._diff self event w = (w1, Ok d1) →
  find_relation (RelationEvent.relation event) (relations w) = Some r →
  rel_data r !! Application (RelationEvent.app event) = Some remote →
  let before := filter (λ kv, kv.1 ≠ "data") remote in
  let after := filter (λ kv, kv.1 ≠ "data") remote' in
  ∃ w3 d,
    BaseRequires._diff self event
      (store_bag (RelationEvent.relation event)
         (Application (RelationEvent.app event)) remote' w1)
    = (w3, Ok d)
    ∧ added d = dom after ∖ dom before
    ∧ deleted d = dom before ∖ dom after
    ∧ ∀ k, k ∈ changed d ↔
        ∃ v v', before !! k = Some v ∧ after !! k = Some v' ∧ v ≠ v'.
Proof.
  intros Hd Hr Ha before after.
  destruct (_diff_after_update self event w w1 d1 r remote remote' Hd Hr Ha)
    as (w3 & d & Hrun & _ & Hadd & Hdel & Hch).
  exists w3, d. split; [exact Hrun|]. split; [exact Hadd|].
  split; [exact Hdel|exact Hch].
Qed.

Lemma diff_reports_the_update_witness :
  ∃ w3 d,
    BaseRequires._diff Scenario.requirer Scenario.changed_event
      (Scenario.endpoints_update
         (BaseRequires._diff Scenario.requirer Scenario.changed_event
            Scenario.w_cluster1).1)
    = (w3, Ok d)
    ∧ added d
      = dom (filter (λ kv : string * string, kv.1 ≠ "data")
               MoreScenarios.published_update)
        ∖ dom (filter (λ kv : string * string, kv.1 ≠ "data")
                 MoreScenarios.published).
Proof.
  destruct (diff_reports_the_update Scenario.requirer Scenario.changed_event
              Scenario.w_cluster1
              (BaseRequires._diff Scenario.requirer Scenario.changed_event
                 Scenario.w_cluster1).1
              (mkDiff {[ "username"; "password"; "endpoints";
                         "read-only-endpoints" ]} ∅ ∅)
              (Scenario.relation_with 1 "database" MoreScenarios.published
                 {[ "alias" := "cluster1" ]})
              MoreScenarios.published MoreScenarios.published_update)
    as (w3 & d & H1 & H2 & _).
  - vm_compute. reflexivity.
  - reflexivity.
  - reflexivity.
  - exists w3, d. split; [exact H1|exact H2].
Defined.

End MoreDiffProperties.

(** ** The bulk read and the event fields *)

Section ReadProperties.

Variable relation_app : Z → option string.

Lemma relation_app_data_cases (r : Relation) :
  (∃ bag, relation_app_data relation_app r = Ok bag)
  ∨ relation_app_data relation_app r = Raise KeyError.
Proof.
  unfold relation_app_data. destruct (relation_app (rel_id r)); [|by right].
  destruct (rel_data r !! Application _); [left; eauto|by right].
Qed.

Lemma fetch_loop_ok (rels : list Relation) :
  ∀ data out,
    BaseRequires.fetch_loop relation_app rels data = Ok out →
    (∀ id, id ∉ rel_id <$> rels → out !! id = data !! id)
    ∧ (NoDup (rel_id <$> rels) →
       ∀ r, r ∈ rels →
         ∃ bag, relation_app_data relation_app r = Ok bag
                ∧ out !! rel_id r
                  = Some (filter (λ kv, kv.1 ≠ "data") bag)).
Proof.
  induction rels as [|x rels IH]; intros data out.
  - intros [= <-]. split; [done|]. by intros _ r ?%elem_of_nil.
  - cbn [BaseRequires.fetch_loop].
    destruct (relation_app_data relation_app x) as [bag|] eqn:Hx; [|done].
    cbn [mbind result_bind]. intros Hout.
    destruct (IH _ _ Hout) as [Hother Hin]. split.
    + intros id Hid. rewrite fmap_cons, not_elem_of_cons in Hid.
      destruct Hid as [Hne Hid]. rewrite (Hother id Hid).
      by rewrite lookup_insert_ne.
    + rewrite fmap_cons. intros [Hx_fresh Hnd]%NoDup_cons r.
      intros [->|Hr]%elem_of_cons.
      * exists bag. split; [done|]. rewrite (Hother _ Hx_fresh).
        by rewrite lookup_insert_eq.
      * by apply Hin.
Qed.

Lemma fetch_loop_total (rels : list Relation) :
  ∀ data,
    Forall (λ r, ∃ bag, relation_app_data relation_app r = Ok bag) rels →
    ∃ out, BaseRequires.fetch_loop relation_app rels data = Ok out.
Proof.
  induction rels as [|x rels IH]; intros data Hall; [by eexists|].
  apply Forall_cons in Hall as [[bag Hx] Hall].
  cbn [BaseRequires.fetch_loop]. rewrite Hx. cbn [mbind result_bind].
  apply IH, Hall.
Qed.

Lemma fetch_loop_dom (rels : list Relation) :
  ∀ data out,
    BaseRequires.fetch_loop relation_app rels data = Ok out →
    dom out = list_to_set (rel_id <$> rels) ∪ dom data.
Proof.
  induction rels as [|x rels IH]; intros data out.
  - intros [= <-]. cbn. set_solver.
  - cbn [BaseRequires.fetch_loop].
    destruct (relation_app_data relation_app x) as [bag|]; [|done].
    cbn [mbind result_bind]. intros Hout%IH. rewrite Hout, dom_insert_L.
    rewrite fmap_cons. cbn [list_to_set]. set_solver.
Qed.

Lemma fetch_loop_error (rels : list Relation) (r : Relation) :
  ∀ data,
    r ∈ rels →
    relation_app_data relation_app r = Raise KeyError →
    BaseRequires.fetch_loop relation_app rels data = Raise KeyError.
Proof.
  induction rels as [|x rels IH]; intros data Hr He;
    [by apply elem_of_nil in Hr|].
  cbn [BaseRequires.fetch_loop].
  destruct (relation_app_data_cases x) as [[bag Hx]|Hx]; rewrite Hx; [|done].
  cbn [mbind result_bind]. apply elem_of_cons in Hr as [->|Hr].
  - congruence.
  - by apply IH.
Qed.

Lemma fetch_relation_data_run (self : BaseRequires.t) (w : World) :
  BaseRequires.fetch_relation_data relation_app self w
  = (w, BaseRequires.fetch_loop relation_app (relations w) ∅).
Proof. reflexivity. Qed.

(** X5: with distinct relation ids and the remote application's
    databag present for every relation, [fetch_relation_data] returns,
    changes nothing, has exactly the relation ids as keys, and gives for
    each relation the remote application's databag without the key
    [data]. *)
Theorem fetch_relation_data_snapshots (self : BaseRequires.t) (w : World) :
  NoDup (rel_id <$> relations w) →
  Forall (λ r, ∃ bag, relation_app_data relation_app r = Ok bag)
    (relations w) →
  ∃ data,
    BaseRequires.fetch_relation_data relation_app self w = (w, Ok data)
    ∧ dom data = list_to_set (rel_id <$> relations w)
    ∧ ∀ r, r ∈ relations w →
        ∃ bag snapshot,
          relation_app_data relation_app r = Ok bag
          ∧ data !! rel_id r = Some snapshot
          ∧ snapshot !! "data" = None
          ∧ ∀ k, k ≠ "data" → snapshot !! k = bag !! k.
Proof.
  intros Hnd Hall. rewrite fetch_relation_data_run.
  destruct (fetch_loop_total _ ∅ Hall) as [out Hout]. exists out.
  rewrite Hout. split; [done|]. split.
  - rewrite (fetch_loop_dom _ _ _ Hout). set_solver.
  - intros r Hr. destruct (fetch_loop_ok _ _ _ Hout) as [_ Hin].
    destruct (Hin Hnd r Hr) as (bag & Hbag & Hlook).
    exists bag, (filter (λ kv, kv.1 ≠ "data") bag).
    split; [done|]. split; [done|]. split.
    + apply not_elem_of_dom, not_data_in_snapshot.
    + intros k Hk. by apply snapshot_lookup.
Qed.

(** X6: when one relation has no known remote application, or no
    databag for it, [fetch_relation_data] raises [KeyError] and returns
    no partial result. *)
Theorem fetch_relation_data_missing_databag (self : BaseRequires.t)
    (w : World) (r : Relation) :
  r ∈ relations w →
  (relation_app (rel_id r) = None
   ∨ ∃ remote, relation_app (rel_id r) = Some remote
               ∧ rel_data r !! Application remote = None) →
  BaseRequires.fetch_relation_data relation_app self w = (w, Raise KeyError).
Proof.
  intros Hr Hmiss. rewrite fetch_relation_data_run. f_equal.
  apply (fetch_loop_error _ r); [done|]. unfold relation_app_data.
  destruct Hmiss as [->|(remote & -> & ->)]; done.
Qed.

Lemma event_field_run (key : string) (e : Emission) (w : World) :
  event_field relation_app key e w
  = (w, match find_relation (em_relation e) (relations w) with
        | Some r =>
            match relation_app_data relation_app r with
            | Ok bag => Ok (bag !! key)
            | Raise err => Raise err
            end
        | None => Raise ModelError
        end).
Proof.
  cbv [event_field get_relation mbind M_bind lift mret M_ret].
  destruct (find_relation _ (relations w)) as [r|]; [|done].
  by destruct (relation_app_data relation_app r).
Qed.

(** After a returning [_diff]: a key it reported as added or changed
    is there for the event fields to read, a deleted one is not. *)
Lemma diff_keys_and_event_fields (self : BaseRequires.t)
    (event : RelationEvent) (w w1 w' : World) (d : Diff) (e : Emission)
    (key : string) :
  BaseRequires._diff self event w = (w1, Ok d) →
  relation_app (RelationEvent.relation event) = Some (RelationEvent.app event) →
  em_relation e = RelationEvent.relation event →
  relations w' = relations w1 →
  (key ∈ added d ∨ key ∈ changed d →
     ∃ v, event_field relation_app key e w' = (w', Ok (Some v)))
  ∧ (key ∈ deleted d → key ≠ "data" →
     event_field relation_app key e w' = (w', Ok None)).
Proof.
  intros Hd Happ He Hrel. rewrite event_field_run, He, Hrel.
  revert Hd. rewrite _diff_run.
  destruct (find_relation _ (relations w)) as [r|] eqn:Hr; [|done].
  destruct (rel_data r !! Unit _) as [local|] eqn:Hl; [|done].
  destruct (loads _) as [old_json|]; [|done].
  destruct (rel_data r !! Application _) as [remote|] eqn:Ha; [|done].
  destruct (as_dict old_json) as [old_data|]; [|done].
  cbv zeta. intros [= <- <-]. rewrite find_store_bag, Hr.
  cbn [fmap option_fmap option_map added changed deleted].
  unfold relation_app_data. cbn [rel_id rel_data].
  rewrite (find_relation_id' _ _ _ Hr), Happ.
  rewrite lookup_insert_ne, Ha by done. split.
  - intros Hk.
    assert (key ∈ dom (filter (λ kv : string * string, kv.1 ≠ "data") remote))
      as [v Hv]%elem_of_dom by set_solver.
    apply map_lookup_filter_Some in Hv as [Hv _]. exists v. by rewrite Hv.
  - intros Hk Hne.
    assert (key ∉ dom (filter (λ kv : string * string, kv.1 ≠ "data") remote))
      as Hnot by set_solver.
    apply not_elem_of_dom in Hnot. rewrite snapshot_lookup in Hnot by done.
    by rewrite Hnot.
Qed.

(** X7: the baseline [_diff] stores is the JSON text of what
    [fetch_relation_data] returns for the event's relation right
    after. *)
Theorem diff_baseline_is_fetched_snapshot (self : BaseRequires.t)
    (event : RelationEvent) (w w1 : World) (d : Diff)
    (data : gmap Z (gmap string string)) :
  BaseRequires._diff self event w = (w1, Ok d) →
  relation_app (RelationEvent.relation event) = Some (RelationEvent.app event) →
  NoDup (rel_id <$> relations w) →
  BaseRequires.fetch_relation_data relation_app self w1 = (w1, Ok data) →
  ∃ snapshot local,
    data !! RelationEvent.relation event = Some snapshot
    ∧ relation_data (RelationEvent.relation event)
        (Unit (BaseRequires.local_unit self)) w1 = (w1, Ok local)
    ∧ local !! "data" = Some (dumps snapshot).
Proof.
  intros Hd Happ Hnd. rewrite fetch_relation_data_run. intros [= Hfetch].
  apply _diff_ok_snapshot in Hd as (r & local & remote & Hr & Hl & Ha & ->).
  set (bag1 := dict_update _ local) in *.
  set (r1 := mkRelation (rel_id r)
               (<[Unit (BaseRequires.local_unit self) := bag1]> (rel_data r))).
  assert (Hr1 : find_relation (RelationEvent.relation event)
                  (relations (store_bag (RelationEvent.relation event)
                     (Unit (BaseRequires.local_unit self)) bag1 w))
                = Some r1).
  { by rewrite find_store_bag, Hr. }
  destruct (fetch_loop_ok _ _ _ Hfetch) as [_ Hin].
  rewrite store_bag_ids in Hin.
  destruct (Hin Hnd r1 (find_relation_elem _ _ _ Hr1)) as (bag & Hbag & Hlook).
  pose proof (find_relation_id' _ _ _ Hr) as Hid.
  unfold relation_app_data in Hbag. cbn [rel_id rel_data r1] in Hbag, Hlook.
  rewrite Hid, Happ, lookup_insert_ne, Ha in Hbag by done.
  injection Hbag as <-. rewrite Hid in Hlook.
  eexists _, bag1. split; [exact Hlook|].
  rewrite relation_data_run, Hr1. cbn [rel_data r1].
  rewrite lookup_insert_eq. split; [done|]. apply dict_update_data.
Qed.

End ReadProperties.

Lemma fetch_relation_data_snapshots_witness :
  ∃ data,
    BaseRequires.fetch_relation_data MoreScenarios.relation_app
      Scenario.requirer Scenario.w_cluster1
    = (Scenario.w_cluster1, Ok data)
    ∧ dom data = {[ 1%Z ]}.
Proof.
  destruct (fetch_relation_data_snapshots MoreScenarios.relation_app
              Scenario.requirer Scenario.w_cluster1)
    as (data & Hrun & Hdom & _).
  - apply NoDup_singleton.
  - repeat (constructor; [eexists; vm_compute; reflexivity|]). constructor.
  - exists data. split; [exact Hrun|]. rewrite Hdom. cbn. set_solver.
Defined.

Lemma fetch_relation_data_missing_databag_witness :
  BaseRequires.fetch_relation_data MoreScenarios.relation_app
    Scenario.requirer MoreScenarios.w_unknown_app
  = (MoreScenarios.w_unknown_app, Raise KeyError).
Proof.
  apply (fetch_relation_data_missing_databag MoreScenarios.relation_app
           Scenario.requirer MoreScenarios.w_unknown_app
           (Scenario.relation_with 3 "database" ∅ ∅)).
  - apply list_elem_of_singleton. reflexivity.
  - left. reflexivity.
Defined.

Lemma diff_baseline_is_fetched_snapshot_witness :
  ∃ snapshot local,
    ({[ 1%Z := MoreScenarios.published ]} : gmap Z (gmap string string))
      !! 1%Z = Some snapshot
    ∧ relation_data 1 (Unit "application/0")
        (BaseRequires._diff Scenario.requirer Scenario.changed_event
           Scenario.w_cluster1).1
      = ((BaseRequires._diff Scenario.requirer Scenario.changed_event
            Scenario.w_cluster1).1, Ok local)
    ∧ local !! "data" = Some (dumps snapshot).
Proof.
  apply (diff_baseline_is_fetched_snapshot MoreScenarios.relation_app
           Scenario.requirer Scenario.changed_event Scenario.w_cluster1
           (BaseRequires._diff Scenario.requirer Scenario.changed_event
              Scenario.w_cluster1).1
           (mkDiff {[ "username"; "password"; "endpoints";
                      "read-only-endpoints" ]} ∅ ∅)).
  - vm_compute. reflexivity.
  - reflexivity.
  - apply NoDup_singleton.
  - vm_compute. reflexivity.
Defined.

(** ** The handlers of relation-changed events *)

Section HandlerProperties.

Lemma fire_relations (self : DatabaseRequires.t) (event : RelationEvent)
    (kind : string) (w : World) :
  let w' := ((emit kind event ;;
              DatabaseRequires._emit_aliased_event self event kind) w).1 in
  relations w' = relations w
  ∧ is_leader w' = is_leader w
  ∧ defined_events w' = defined_events w
  ∧ ∃ aliased, emitted w' = emitted w ++ emission kind event :: aliased.
Proof.
  cbv zeta. rewrite fire_run. cbv zeta.
  destruct (find_relation _ (relations w)) as [r|];
    [|do 3 (split; [done|]); by exists []].
  destruct (rel_data r !! Unit _) as [bag|];
    [|do 3 (split; [done|]); by exists []].
  destruct (truthy (bag !! "alias")); [|do 3 (split; [done|]); by exists []].
  destruct (DatabaseRequires.has_event w _);
    [|do 3 (split; [done|]); by exists []].
  do 3 (split; [done|]). eexists [_].
  cbn [fst emitted record_emission]. by rewrite <- app_assoc.
Qed.

(** The world the Database handler leaves has the relations [_diff] left. *)
Lemma database_changed_relations (self : DatabaseRequires.t)
    (event : RelationEvent) (w w1 : World) (d : Diff) :
  BaseRequires._diff (DatabaseRequires.base self) event w = (w1, Ok d) →
  let w' := (DatabaseRequires._on_relation_changed_event self event w).1 in
  relations w' = relations w1
  ∧ is_leader w' = is_leader w1
  ∧ defined_events w' = defined_events w1
  ∧ match spec_classify d with
    | Some kind =>
        ∃ aliased, emitted w' = emitted w1 ++ emission kind event :: aliased
    | None => w' = w1
    end.
Proof.
  intros Hd. cbv zeta. rewrite _on_relation_changed_event_run, Hd.
  destruct (spec_classify d) as [kind|]; [|done].
  apply fire_relations.
Qed.

Lemma kafka_changed_run (self : KafkaRequires.t) (event : RelationEvent)
    (w : World) :
  KafkaRequires._on_relation_changed_event self event w
  = match BaseRequires._diff (KafkaRequires.base self) event w with
    | (w1, Ok diff) =>
        if bool_decide ("username" ∈ added diff)
           && bool_decide ("password" ∈ added diff)
        then (record_emission (emission "topic_created" event) w1, Ok ())
        else if bool_decide ("endpoints" ∈ added diff)
                || bool_decide ("endpoints" ∈ changed diff)
        then (record_emission (emission "bootstrap_server_changed" event) w1,
              Ok ())
        else if bool_decide ("username" ∈ changed diff)
                || bool_decide ("password" ∈ changed diff)
        then (record_emission (emission "credentials_changed" event) w1, Ok ())
        else (w1, Ok ())
    | (w1, Raise e) => (w1, Raise e)
    end.
Proof.
  unfold KafkaRequires._on_relation_changed_event.
  unfold mbind at 1. unfold M_bind at 1.
  destruct (BaseRequires._diff _ event w) as [w1 [d|e]]; [|done].
  repeat match goal with
         | |- context [if ?b then _ else _] => destruct b
         end; done.
Qed.

Lemma zookeeper_changed_run (self : ZookeeperRequires.t)
    (event : RelationEvent) (w : World) :
  ZookeeperRequires._on_relation_changed_event self event w
  = match BaseRequires._diff (ZookeeperRequires.base self) event w with
    | (w1, Ok diff) =>
        if bool_decide ("username" ∈ added diff)
           && bool_decide ("password" ∈ added diff)
        then (record_emission (emission "chroot_created" event) w1, Ok ())
        else if bool_decide ("endpoints" ∈ added diff)
                || bool_decide ("endpoints" ∈ changed diff)
        then (record_emission (emission "endpoints_changed" event) w1, Ok ())
        else if bool_decide ("username" ∈ changed diff)
                || bool_decide ("password" ∈ changed diff)
        then (record_emission (emission "credentials_changed" event) w1, Ok ())
        else (w1, Ok ())
    | (w1, Raise e) => (w1, Raise e)
    end.
Proof.
  unfold ZookeeperRequires._on_relation_changed_event.
  unfold mbind at 1. unfold M_bind at 1.
  destruct (BaseRequires._diff _ event w) as [w1 [d|e]]; [|done].
  repeat match goal with
         | |- context [if ?b then _ else _] => destruct b
         end; done.
Qed.

(** X8: the Kafka handler of relation-changed raises exactly when
    [_diff] does; otherwise it returns normally, leaves the relations as
    [_diff] left them and fires at most one event, in priority order:
    [topic_created] when both credentials were added, else
    [bootstrap_server_changed] when the endpoints were added or changed,
    else [credentials_changed] when a credential changed, else
    nothing. *)
Theorem kafka_handler_fires_one_kind (self : KafkaRequires.t)
    (event : RelationEvent) (w : World) :
  let run := KafkaRequires._on_relation_changed_event self event w in
  match BaseRequires._diff (KafkaRequires.base self) event w with
  | (w1, Raise e) => run = (w1, Raise e)
  | (w1, Ok d) =>
      let created := "username" ∈ added d ∧ "password" ∈ added d in
      let endpoints := "endpoints" ∈ added d ∨ "endpoints" ∈ changed d in
      let credentials := "username" ∈ changed d ∨ "password" ∈ changed d in
      run.2 = Ok ()
      ∧ relations run.1 = relations w1
      ∧ ∃ fired,
          emitted run.1 = emitted w ++ fired
          ∧ (created → fired = [emission "topic_created" event])
          ∧ (¬ created → endpoints →
             fired = [emission "bootstrap_server_changed" event])
          ∧ (¬ created → ¬ endpoints → credentials →
             fired = [emission "credentials_changed" event])
          ∧ (¬ created → ¬ endpoints → ¬ credentials → fired = [])
  end.
Proof.
  cbv zeta. rewrite kafka_changed_run.
  pose proof (_diff_emitted (KafkaRequires.base self) event w) as (Hem & _ & _).
  destruct (BaseRequires._diff _ event w) as [w1 [d|e]]; [|done].
  cbn [fst] in Hem. rewrite <- Hem.
  repeat case_bool_decide; cbn [andb orb fst snd relations emitted record_emission];
    (split; [done|]); (split; [done|]);
    first [ exists []; rewrite app_nil_r; split; [done|]; repeat split; tauto
          | eexists [_]; split; [done|]; repeat split; tauto ].
Qed.

(** X9: the Zookeeper handler of relation-changed raises exactly when
    [_diff] does; otherwise it returns normally, leaves the relations as
    [_diff] left them and fires at most one event, in priority order:
    [chroot_created] when both credentials were added, else
    [endpoints_changed] when the endpoints were added or changed, else
    [credentials_changed] when a credential changed, else nothing. *)
Theorem zookeeper_handler_fires_one_kind (self : ZookeeperRequires.t)
    (event : RelationEvent) (w : World) :
  let run := ZookeeperRequires._on_relation_changed_event self event w in
  match BaseRequires._diff (ZookeeperRequires.base self) event w with
  | (w1, Raise e) => run = (w1, Raise e)
  | (w1, Ok d) =>
      let created := "username" ∈ added d ∧ "password" ∈ added d in
      let endpoints := "endpoints" ∈ added d ∨ "endpoints" ∈ changed d in
      let credentials := "username" ∈ changed d ∨ "password" ∈ changed d in
      run.2 = Ok ()
      ∧ relations run.1 = relations w1
      ∧ ∃ fired,
          emitted run.1 = emitted w ++ fired
          ∧ (created → fired = [emission "chroot_created" event])
          ∧ (¬ created → endpoints →
             fired = [emission "endpoints_changed" event])
          ∧ (¬ created → ¬ endpoints → credentials →
             fired = [emission "credentials_changed" event])
          ∧ (¬ created → ¬ endpoints → ¬ credentials → fired = [])
  end.
Proof.
  cbv zeta. rewrite zookeeper_changed_run.
  pose proof (_diff_emitted (ZookeeperRequires.base self) event w)
    as (Hem & _ & _).
  destruct (BaseRequires._diff _ event w) as [w1 [d|e]]; [|done].
  cbn [fst] in Hem. rewrite <- Hem.
  repeat case_bool_decide; cbn [andb orb fst snd relations emitted record_emission];
    (split; [done|]); (split; [done|]);
    first [ exists []; rewrite app_nil_r; split; [done|]; repeat split; tauto
          | eexists [_]; split; [done|]; repeat split; tauto ].
Qed.

(** Once [_diff] has returned, a [_diff] in any world with the relations
    it left reports nothing and writes nothing. *)
Lemma _diff_settled (self : BaseRequires.t) (event : RelationEvent)
    (w w1 w' : World) (d : Diff) :
  BaseRequires._diff self event w = (w1, Ok d) →
  relations w' = relations w1 →
  BaseRequires._diff self event w' = (w', Ok (mkDiff ∅ ∅ ∅)).
Proof.
  intros Hd Hrel.
  apply _diff_ok_snapshot in Hd as (r & local & remote & Hr & Hl & Ha & ->).
  eapply (_diff_at_baseline self event w' _ _ remote).
  - by rewrite Hrel, find_store_bag, Hr.
  - cbn [rel_data]. by rewrite lookup_insert_eq.
  - cbn [rel_data]. by rewrite lookup_insert_ne.
  - apply dict_update_data.
Qed.

Lemma spec_classify_empty : spec_classify (mkDiff ∅ ∅ ∅) = None.
Proof. unfold spec_classify. repeat case_bool_decide; set_solver. Qed.

(** X10: once [_diff] has returned in a handler of relation-changed,
    running the handler again on the world it left fires nothing and
    returns normally, for the three requirers; for [DatabaseRequires]
    also when the first run stopped at the alias-qualified event, which
    the second run does not fire either. *)
Theorem changed_handlers_fire_once (base : BaseRequires.t)
    (database : DatabaseRequires.t) (kafka : KafkaRequires.t)
    (zookeeper : ZookeeperRequires.t) (event : RelationEvent)
    (w w1 : World) (d : Diff) :
  DatabaseRequires.base database = base →
  KafkaRequires.base kafka = base →
  ZookeeperRequires.base zookeeper = base →
  BaseRequires._diff base event w = (w1, Ok d) →
  (let w' := (DatabaseRequires._on_relation_changed_event database event w).1 in
   DatabaseRequires._on_relation_changed_event database event w' = (w', Ok ()))
  ∧ (let w' := (KafkaRequires._on_relation_changed_event kafka event w).1 in
     KafkaRequires._on_relation_changed_event kafka event w' = (w', Ok ()))
  ∧ (let w' :=
       (ZookeeperRequires._on_relation_changed_event zookeeper event w).1 in
     ZookeeperRequires._on_relation_changed_event zookeeper event w'
     = (w', Ok ())).
Proof.
  intros Hdb Hk Hz Hd. cbv zeta. split; [|split].
  - rewrite <- Hdb in Hd.
    destruct (database_changed_relations database event w w1 d Hd)
      as (Hrel & _).
    rewrite (_on_relation_changed_event_run database event
               (DatabaseRequires._on_relation_changed_event database event w).1).
    rewrite (_diff_settled _ event w w1 _ d Hd Hrel).
    by rewrite spec_classify_empty.
  - rewrite <- Hk in Hd.
    assert (Hrel : relations
              (KafkaRequires._on_relation_changed_event kafka event w).1
            = relations w1).
    { rewrite kafka_changed_run, Hd.
      repeat match goal with
             | |- context [if ?b then _ else _] => destruct b
             end; done. }
    rewrite (kafka_changed_run kafka event
               (KafkaRequires._on_relation_changed_event kafka event w).1).
    rewrite (_diff_settled _ event w w1 _ d Hd Hrel).
    cbn [added changed]. repeat case_bool_decide; set_solver.
  - rewrite <- Hz in Hd.
    assert (Hrel : relations
              (ZookeeperRequires._on_relation_changed_event zookeeper event w).1
            = relations w1).
    { rewrite zookeeper_changed_run, Hd.
      repeat match goal with
             | |- context [if ?b then _ else _] => destruct b
             end; done. }
    rewrite (zookeeper_changed_run zookeeper event
               (ZookeeperRequires._on_relation_changed_event zookeeper event w).1).
    rewrite (_diff_settled _ event w w1 _ d Hd Hrel).
    cbn [added changed]. repeat case_bool_decide; set_solver.
Qed.

(** The snapshots before and after one key of the remote databag is
    set. *)
Lemma snapshot_insert (remote : gmap string string) (key v : string) :
  key ≠ "data" →
  let before := filter (λ kv : string * string, kv.1 ≠ "data") remote in
  let after :=
    filter (λ kv : string * string, kv.1 ≠ "data") (<[key := v]> remote) in
  after !! key = Some v
  ∧ before !! key = remote !! key
  ∧ ∀ k, k ≠ key → after !! k = before !! k.
Proof.
  intros Hkey. cbv zeta. split; [|split].
  - by rewrite snapshot_lookup, lookup_insert_eq.
  - by apply snapshot_lookup.
  - intros k Hk. destruct (decide (k = "data")) as [->|Hd].
    + pose proof (not_data_in_snapshot remote) as H1.
      pose proof (not_data_in_snapshot (<[key := v]> remote)) as H2.
      apply not_elem_of_dom in H1, H2. by rewrite H1, H2.
    + by rewrite !snapshot_lookup, lookup_insert_ne.
Qed.

(** The diff after one key of the remote databag was set. *)
Lemma _diff_after_insert (self : BaseRequires.t)
    (event : RelationEvent) (w w1 : World) (d1 : Diff) (r : Relation)
    (remote : gmap string string) (key v : string) :
  BaseRequires._diff self event w = (w1, Ok d1) →
  find_relation (RelationEvent.relation event) (relations w) = Some r →
  rel_data r !! Application (RelationEvent.app event) = Some remote →
  key ≠ "data" →
  ∃ w3 d,
    BaseRequires._diff self event
      (store_bag (RelationEvent.relation event)
         (Application (RelationEvent.app event)) (<[key := v]> remote) w1)
    = (w3, Ok d)
    ∧ emitted w3 = emitted w
    ∧ (∀ k, k ≠ key → (k ∉ added d) ∧ (k ∉ changed d))
    ∧ (key ∈ added d ↔ remote !! key = None)
    ∧ (key ∈ changed d ↔ ∃ old, remote !! key = Some old ∧ old ≠ v).
Proof.
  intros Hd Hr Ha Hkey.
  destruct (_diff_after_update self event w w1 d1 r remote (<[key := v]> remote)
              Hd Hr Ha) as (w3 & d & Hrun & Hem & Hadd & _ & Hch).
  destruct (snapshot_insert remote key v Hkey) as (Hafter & Hbefore & Hsame).
  exists w3, d. split; [exact Hrun|]. split; [exact Hem|]. split; [|split].
  - intros k Hk. split.
    + rewrite Hadd, elem_of_difference, !elem_of_dom, (Hsame k Hk). tauto.
    + rewrite Hch, (Hsame k Hk). intros (x & x' & H1 & H2 & Hne). congruence.
  - rewrite Hadd, elem_of_difference, !elem_of_dom, Hafter, Hbefore.
    rewrite <- eq_None_not_Some. split; [tauto|]. split; [eauto|done].
  - rewrite Hch, Hafter, Hbefore. split.
    + intros (x & x' & H1 & [= <-] & Hne). eauto.
    + intros (old & H1 & Hne). eauto.
Qed.

(** X11: when one credential is part of the baseline and the other one
    is published afterwards, the handlers of the three requirers fire
    nothing: the creation event needs both credentials added in one
    diff. *)
Theorem credentials_in_two_steps_fire_nothing (base : BaseRequires.t)
    (database : DatabaseRequires.t) (kafka : KafkaRequires.t)
    (zookeeper : ZookeeperRequires.t) (event : RelationEvent)
    (w w1 : World) (d1 : Diff) (r : Relation)
    (remote : gmap string string) (key v : string) :
  DatabaseRequires.base database = base →
  KafkaRequires.base kafka = base →
  ZookeeperRequires.base zookeeper = base →
  BaseRequires._diff base event w = (w1, Ok d1) →
  find_relation (RelationEvent.relation event) (relations w) = Some r →
  rel_data r !! Application (RelationEvent.app event) = Some remote →
  key = "username" ∨ key = "password" →
  remote !! key = None →
  is_Some (remote !! "username") ∨ is_Some (remote !! "password") →
  let w2 :=
    store_bag (RelationEvent.relation event)
      (Application (RelationEvent.app event)) (<[key := v]> remote) w1 in
  ∃ w3,
    emitted w3 = emitted w
    ∧ DatabaseRequires._on_relation_changed_event database event w2
      = (w3, Ok ())
    ∧ KafkaRequires._on_relation_changed_event kafka event w2 = (w3, Ok ())
    ∧ ZookeeperRequires._on_relation_changed_event zookeeper event w2
      = (w3, Ok ()).
Proof.
  intros Hdb Hk Hz Hd Hr Ha Hkey Hnone Hone. cbv zeta.
  assert (Hkd : key ≠ "data") by (by destruct Hkey as [-> | ->]).
  destruct (_diff_after_insert base event w w1 d1 r remote key v Hd Hr Ha Hkd)
    as (w3 & d & Hrun & Hem & Hother & Hadd & Hch).
  assert (Hcreated : ¬ ("username" ∈ added d ∧ "password" ∈ added d)).
  { intros [Hu Hp].
    destruct Hkey as [-> | ->].
    - destruct (Hother "password") as [Hn _]; done.
    - destruct (Hother "username") as [Hn _]; done. }
  assert (Hke : "endpoints" ≠ key) by (by destruct Hkey as [-> | ->]).
  assert (Hkr : "read-only-endpoints" ≠ key) by (by destruct Hkey as [-> | ->]).
  destruct (Hother _ Hke) as [He1 He2]. destruct (Hother _ Hkr) as [Hr1 Hr2].
  assert (Hcu : "username" ∉ changed d).
  { destruct (decide ("username" = key)) as [<-|Hne].
    - rewrite Hch, Hnone. by intros (? & ? & _).
    - by destruct (Hother _ Hne). }
  assert (Hcp : "password" ∉ changed d).
  { destruct (decide ("password" = key)) as [<-|Hne].
    - rewrite Hch, Hnone. by intros (? & ? & _).
    - by destruct (Hother _ Hne). }
  exists w3. split; [exact Hem|]. split; [|split].
  - rewrite _on_relation_changed_event_run, Hdb, Hrun.
    unfold spec_classify. repeat case_bool_decide; tauto.
  - rewrite kafka_changed_run, Hk, Hrun.
    repeat case_bool_decide; cbn [andb orb]; tauto.
  - rewrite zookeeper_changed_run, Hz, Hrun.
    repeat case_bool_decide; cbn [andb orb]; tauto.
Qed.

(** X12: when a credential of the baseline gets a new value and
    nothing else changes, [KafkaRequires] and [ZookeeperRequires] fire
    [credentials_changed] and nothing else, and [DatabaseRequires] fires
    nothing. *)
Theorem credential_rotation_events (base : BaseRequires.t)
    (database : DatabaseRequires.t) (kafka : KafkaRequires.t)
    (zookeeper : ZookeeperRequires.t) (event : RelationEvent)
    (w w1 : World) (d1 : Diff) (r : Relation)
    (remote : gmap string string) (key old new : string) :
  DatabaseRequires.base database = base →
  KafkaRequires.base kafka = base →
  ZookeeperRequires.base zookeeper = base →
  BaseRequires._diff base event w = (w1, Ok d1) →
  find_relation (RelationEvent.relation event) (relations w) = Some r →
  rel_data r !! Application (RelationEvent.app event) = Some remote →
  key = "username" ∨ key = "password" →
  remote !! key = Some old →
  new ≠ old →
  let w2 :=
    store_bag (RelationEvent.relation event)
      (Application (RelationEvent.app event)) (<[key := new]> remote) w1 in
  ∃ w3,
    emitted w3 = emitted w
    ∧ DatabaseRequires._on_relation_changed_event database event w2
      = (w3, Ok ())
    ∧ KafkaRequires._on_relation_changed_event kafka event w2
      = (record_emission (emission "credentials_changed" event) w3, Ok ())
    ∧ ZookeeperRequires._on_relation_changed_event zookeeper event w2
      = (record_emission (emission "credentials_changed" event) w3, Ok ()).
Proof.
  intros Hdb Hk Hz Hd Hr Ha Hkey Hold Hne. cbv zeta.
  assert (Hkd : key ≠ "data") by (by destruct Hkey as [-> | ->]).
  destruct (_diff_after_insert base event w w1 d1 r remote key new Hd Hr Ha Hkd)
    as (w3 & d & Hrun & Hem & Hother & Hadd & Hch).
  assert (Hka : key ∉ added d) by (rewrite Hadd, Hold; done).
  assert (Hkc : key ∈ changed d) by (apply Hch; eauto).
  assert (Hke : "endpoints" ≠ key) by (by destruct Hkey as [-> | ->]).
  assert (Hkr : "read-only-endpoints" ≠ key) by (by destruct Hkey as [-> | ->]).
  destruct (Hother _ Hke) as [He1 He2]. destruct (Hother _ Hkr) as [Hr1 Hr2].
  exists w3. split; [exact Hem|]. split; [|split].
  - rewrite _on_relation_changed_event_run, Hdb, Hrun.
    unfold spec_classify.
    repeat case_bool_decide; try tauto; destruct Hkey as [-> | ->]; tauto.
  - rewrite kafka_changed_run, Hk, Hrun.
    repeat case_bool_decide; cbn [andb orb]; try tauto;
      destruct Hkey as [-> | ->]; tauto.
  - rewrite zookeeper_changed_run, Hz, Hrun.
    repeat case_bool_decide; cbn [andb orb]; try tauto;
      destruct Hkey as [-> | ->]; tauto.
Qed.

Lemma changed_handlers_fire_once_witness :
  let w' :=
    (DatabaseRequires._on_relation_changed_event Scenario.database_requirer
       Scenario.changed_event Scenario.w_cluster1).1 in
  DatabaseRequires._on_relation_changed_event Scenario.database_requirer
    Scenario.changed_event w' = (w', Ok ()).
Proof.
  refine (proj1 (changed_handlers_fire_once Scenario.requirer
            Scenario.database_requirer MoreScenarios.kafka_requirer
            MoreScenarios.zookeeper_requirer Scenario.changed_event
            Scenario.w_cluster1
            (BaseRequires._diff Scenario.requirer Scenario.changed_event
               Scenario.w_cluster1).1
            (mkDiff {[ "username"; "password"; "endpoints";
                       "read-only-endpoints" ]} ∅ ∅)
            eq_refl eq_refl eq_refl _)).
  vm_compute. reflexivity.
Defined.

Lemma credentials_in_two_steps_fire_nothing_witness :
  ∃ w3,
    emitted w3 = []
    ∧ KafkaRequires._on_relation_changed_event MoreScenarios.kafka_requirer
        Scenario.changed_event
        (store_bag 1 (Application "database")
           (<["password" := "test-password"]>
              {[ "username" := "test-username" ]})
           (BaseRequires._diff Scenario.requirer Scenario.changed_event
              MoreScenarios.w_username_only).1)
      = (w3, Ok ()).
Proof.
  destruct (credentials_in_two_steps_fire_nothing Scenario.requirer
              Scenario.database_requirer MoreScenarios.kafka_requirer
              MoreScenarios.zookeeper_requirer Scenario.changed_event
              MoreScenarios.w_username_only
              (BaseRequires._diff Scenario.requirer Scenario.changed_event
                 MoreScenarios.w_username_only).1
              (mkDiff {[ "username" ]} ∅ ∅)
              (Scenario.relation_with 1 "database"
                 {[ "username" := "test-username" ]} ∅)
              {[ "username" := "test-username" ]}
              "password" "test-password")
    as (w3 & Hem & _ & Hkafka & _).
  - reflexivity.
  - reflexivity.
  - reflexivity.
  - vm_compute. reflexivity.
  - reflexivity.
  - reflexivity.
  - by right.
  - reflexivity.
  - left. by eexists.
  - exists w3. split; [exact Hem|exact Hkafka].
Defined.

Lemma credential_rotation_events_witness :
  ∃ w3,
    emitted w3 = []
    ∧ KafkaRequires._on_relation_changed_event MoreScenarios.kafka_requirer
        Scenario.changed_event
        (store_bag 1 (Application "database")
           (<["password" := "rotated"]> Scenario.credentials)
           (BaseRequires._diff Scenario.requirer Scenario.changed_event
              Scenario.w_fresh).1)
      = (record_emission
           (emission "credentials_changed" Scenario.changed_event) w3, Ok ()).
Proof.
  destruct (credential_rotation_events Scenario.requirer
              Scenario.database_requirer MoreScenarios.kafka_requirer
              MoreScenarios.zookeeper_requirer Scenario.changed_event
              Scenario.w_fresh
              (BaseRequires._diff Scenario.requirer Scenario.changed_event
                 Scenario.w_fresh).1
              (mkDiff {[ "username"; "password" ]} ∅ ∅)
              (Scenario.relation_with 1 "database" Scenario.credentials ∅)
              Scenario.credentials "password" "test-password" "rotated")
    as (w3 & Hem & _ & Hkafka & _).
  - reflexivity.
  - reflexivity.
  - reflexivity.
  - vm_compute. reflexivity.
  - reflexivity.
  - reflexivity.
  - by right.
  - reflexivity.
  - discriminate.
  - exists w3. split; [exact Hem|exact Hkafka].
Defined.

End HandlerProperties.

(** ** What a fired event can read *)

Section EventFieldProperties.

Variable relation_app : Z → option string.

(** X13: the event [DatabaseRequires] fires on relation-changed is
    among the emitted ones, and its fields are there to read:
    [username] and [password] for [database_created], [endpoints] for
    [endpoints_changed], [read_only_endpoints] for
    [read_only_endpoints_changed]; none of them is [None]. *)
Theorem database_event_fields_readable (self : DatabaseRequires.t)
    (event : RelationEvent) (w w1 : World) (d : Diff) (kind : string) :
  BaseRequires._diff (DatabaseRequires.base self) event w = (w1, Ok d) →
  relation_app (RelationEvent.relation event) = Some (RelationEvent.app event) →
  spec_classify d = Some kind →
  let w' := (DatabaseRequires._on_relation_changed_event self event w).1 in
  let e := emission kind event in
  e ∈ emitted w'
  ∧ (kind = "database_created" →
     ∃ username password,
       BaseEvent.username relation_app e w' = (w', Ok (Some username))
       ∧ BaseEvent.password relation_app e w' = (w', Ok (Some password)))
  ∧ (kind = "endpoints_changed" →
     ∃ endpoints,
       DatabaseEvent.endpoints relation_app e w' = (w', Ok (Some endpoints)))
  ∧ (kind = "read_only_endpoints_changed" →
     ∃ endpoints,
       DatabaseEvent.read_only_endpoints relation_app e w'
       = (w', Ok (Some endpoints))).
Proof.
  intros Hd Happ Hkind. cbv zeta.
  destruct (database_changed_relations self event w w1 d Hd)
    as (Hrel & _ & _ & Hfired).
  rewrite Hkind in Hfired. destruct Hfired as [aliased Hfired].
  assert (Hfield : ∀ key, key ∈ added d ∨ key ∈ changed d →
            ∃ v, event_field relation_app key (emission kind event)
                   (DatabaseRequires._on_relation_changed_event self event w).1
                 = ((DatabaseRequires._on_relation_changed_event self event w).1,
                    Ok (Some v))).
  { intros key Hkey.
    by apply (diff_keys_and_event_fields relation_app _ event w w1 _ d
                (emission kind event) key Hd Happ eq_refl Hrel). }
  split.
  { rewrite Hfired. set_solver. }
  unfold spec_classify in Hkind.
  unfold BaseEvent.username, BaseEvent.password, DatabaseEvent.endpoints,
    DatabaseEvent.read_only_endpoints.
  repeat case_bool_decide; try discriminate; injection Hkind as <-.
  - split; [|split]; [|done|done]. intros _.
    destruct (Hfield "username") as [u Hu]; [tauto|].
    destruct (Hfield "password") as [p Hp]; [tauto|]. eauto.
  - split; [|split]; [done| |done]. intros _. by apply Hfield.
  - split; [|split]; [done|done|]. intros _. by apply Hfield.
Qed.

End EventFieldProperties.

Lemma database_event_fields_readable_witness :
  let w' :=
    (DatabaseRequires._on_relation_changed_event Scenario.database_requirer
       Scenario.changed_event Scenario.w_cluster1).1 in
  emission "database_created" Scenario.changed_event ∈ emitted w'.
Proof.
  refine (proj1 (database_event_fields_readable MoreScenarios.relation_app
            Scenario.database_requirer Scenario.changed_event
            Scenario.w_cluster1
            (BaseRequires._diff Scenario.requirer Scenario.changed_event
               Scenario.w_cluster1).1
            (mkDiff {[ "username"; "password"; "endpoints";
                       "read-only-endpoints" ]} ∅ ∅)
            "database_created" _ eq_refl _)).
  - vm_compute. reflexivity.
  - vm_compute. reflexivity.
Defined.

Section StreamingEventFieldProperties.

Variable relation_app : Z → option string.

(** X14: on an event [KafkaRequires] fires on relation-changed,
    [username] and [password] are set for [topic_created],
    [bootstrap_server] for [bootstrap_server_changed], and one of
    [username], [password] for [credentials_changed]. *)
Theorem kafka_event_fields_readable (self : KafkaRequires.t)
    (event : RelationEvent) (w w1 : World) (d : Diff)
    (fired : list Emission) (e : Emission) :
  BaseRequires._diff (KafkaRequires.base self) event w = (w1, Ok d) →
  relation_app (RelationEvent.relation event) = Some (RelationEvent.app event) →
  let w' := (KafkaRequires._on_relation_changed_event self event w).1 in
  emitted w' = emitted w ++ fired →
  e ∈ fired →
  (em_name e = "topic_created" →
     ∃ username password,
       BaseEvent.username relation_app e w' = (w', Ok (Some username))
       ∧ BaseEvent.password relation_app e w' = (w', Ok (Some password)))
  ∧ (em_name e = "bootstrap_server_changed" →
     ∃ server,
       KafkaEvent.bootstrap_server relation_app e w' = (w', Ok (Some server)))
  ∧ (em_name e = "credentials_changed" →
     (∃ username,
        BaseEvent.username relation_app e w' = (w', Ok (Some username)))
     ∨ (∃ password,
          BaseEvent.password relation_app e w' = (w', Ok (Some password)))).
Proof.
  intros Hd Happ. cbv zeta.
  pose proof (_diff_emitted (KafkaRequires.base self) event w) as (Hem & _ & _).
  rewrite Hd in Hem. cbn [fst] in Hem.
  assert (Hfield : ∀ w' key, relations w' = relations w1 →
            key ∈ added d ∨ key ∈ changed d →
            ∃ v, event_field relation_app key (emission (em_name e) event) w'
                 = (w', Ok (Some v))).
  { intros w' key Hrel Hkey.
    by apply (diff_keys_and_event_fields relation_app _ event w w1 w' d
                (emission (em_name e) event) key Hd Happ eq_refl Hrel). }
  unfold BaseEvent.username, BaseEvent.password, KafkaEvent.bootstrap_server.
  rewrite kafka_changed_run, Hd.
  repeat case_bool_decide; cbn [andb orb fst emitted record_emission];
    rewrite <- Hem;
    try (intros <-%app_inv_head Hin; apply list_elem_of_singleton in Hin;
         subst e; cbn [em_name emission] in *;
         split; [|split]; intros Hname; try discriminate Hname);
    try (rewrite <- (app_nil_r (emitted w1)) at 1;
         intros <-%app_inv_head Hin; by apply elem_of_nil in Hin).
  all: try (destruct (Hfield (record_emission
                        (emission "topic_created" event) w1) "username")
              as [u Hu]; [done|tauto|];
            destruct (Hfield (record_emission
                        (emission "topic_created" event) w1) "password")
              as [p Hp]; [done|tauto|]; by eauto).
  all: try (by apply (Hfield (record_emission
                        (emission "bootstrap_server_changed" event) w1)
                        "endpoints"); [done|tauto]).
  all: try (left;
            by apply (Hfield (record_emission
                        (emission "credentials_changed" event) w1)
                        "username"); [done|tauto]).
  all: try (right;
            by apply (Hfield (record_emission
                        (emission "credentials_changed" event) w1)
                        "password"); [done|tauto]).
Qed.

(** X15: on an event [ZookeeperRequires] fires on relation-changed,
    [username] and [password] are set for [chroot_created], [endpoints]
    for [endpoints_changed], and one of [username], [password] for
    [credentials_changed]. *)
Theorem zookeeper_event_fields_readable (self : ZookeeperRequires.t)
    (event : RelationEvent) (w w1 : World) (d : Diff)
    (fired : list Emission) (e : Emission) :
  BaseRequires._diff (ZookeeperRequires.base self) event w = (w1, Ok d) →
  relation_app (RelationEvent.relation event) = Some (RelationEvent.app event) →
  let w' := (ZookeeperRequires._on_relation_changed_event self event w).1 in
  emitted w' = emitted w ++ fired →
  e ∈ fired →
  (em_name e = "chroot_created" →
     ∃ username password,
       BaseEvent.username relation_app e w' = (w', Ok (Some username))
       ∧ BaseEvent.password relation_app e w' = (w', Ok (Some password)))
  ∧ (em_name e = "endpoints_changed" →
     ∃ endpoints,
       ZookeeperEvent.endpoints relation_app e w' = (w', Ok (Some endpoints)))
  ∧ (em_name e = "credentials_changed" →
     (∃ username,
        BaseEvent.username relation_app e w' = (w', Ok (Some username)))
     ∨ (∃ password,
          BaseEvent.password relation_app e w' = (w', Ok (Some password)))).
Proof.
  intros Hd Happ. cbv zeta.
  pose proof (_diff_emitted (ZookeeperRequires.base self) event w)
    as (Hem & _ & _).
  rewrite Hd in Hem. cbn [fst] in Hem.
  assert (Hfield : ∀ w' key, relations w' = relations w1 →
            key ∈ added d ∨ key ∈ changed d →
            ∃ v, event_field relation_app key (emission (em_name e) event) w'
                 = (w', Ok (Some v))).
  { intros w' key Hrel Hkey.
    by apply (diff_keys_and_event_fields relation_app _ event w w1 w' d
                (emission (em_name e) event) key Hd Happ eq_refl Hrel). }
  unfold BaseEvent.username, BaseEvent.password, ZookeeperEvent.endpoints.
  rewrite zookeeper_changed_run, Hd.
  repeat case_bool_decide; cbn [andb orb fst emitted record_emission];
    rewrite <- Hem;
    try (intros <-%app_inv_head Hin; apply list_elem_of_singleton in Hin;
         subst e; cbn [em_name emission] in *;
         split; [|split]; intros Hname; try discriminate Hname);
    try (rewrite <- (app_nil_r (emitted w1)) at 1;
         intros <-%app_inv_head Hin; by apply elem_of_nil in Hin).
  all: try (destruct (Hfield (record_emission
                        (emission "chroot_created" event) w1) "username")
              as [u Hu]; [done|tauto|];
            destruct (Hfield (record_emission
                        (emission "chroot_created" event) w1) "password")
              as [p Hp]; [done|tauto|]; by eauto).
  all: try (by apply (Hfield (record_emission
                        (emission "endpoints_changed" event) w1)
                        "endpoints"); [done|tauto]).
  all: try (left;
            by apply (Hfield (record_emission
                        (emission "credentials_changed" event) w1)
                        "username"); [done|tauto]).
  all: try (right;
            by apply (Hfield (record_emission
                        (emission "credentials_changed" event) w1)
                        "password"); [done|tauto]).
Qed.

End StreamingEventFieldProperties.

Lemma kafka_event_fields_readable_witness :
  let w' :=
    (KafkaRequires._on_relation_changed_event MoreScenarios.kafka_requirer
       Scenario.changed_event Scenario.w_fresh).1 in
  let e := emission "topic_created" Scenario.changed_event in
  ∃ username password,
    BaseEvent.username MoreScenarios.relation_app e w'
    = (w', Ok (Some username))
    ∧ BaseEvent.password MoreScenarios.relation_app e w'
      = (w', Ok (Some password)).
Proof.
  refine (proj1 (kafka_event_fields_readable MoreScenarios.relation_app
            MoreScenarios.kafka_requirer Scenario.changed_event
            Scenario.w_fresh
            (BaseRequires._diff Scenario.requirer Scenario.changed_event
               Scenario.w_fresh).1
            (mkDiff {[ "username"; "password" ]} ∅ ∅)
            [emission "topic_created" Scenario.changed_event]
            (emission "topic_created" Scenario.changed_event)
            _ eq_refl _ _) eq_refl).
  - vm_compute. reflexivity.
  - vm_compute. reflexivity.
  - apply list_elem_of_singleton. reflexivity.
Defined.

Lemma zookeeper_event_fields_readable_witness :
  let w' :=
    (ZookeeperRequires._on_relation_changed_event
       MoreScenarios.zookeeper_requirer Scenario.changed_event
       Scenario.w_fresh).1 in
  let e := emission "chroot_created" Scenario.changed_event in
  ∃ username password,
    BaseEvent.username MoreScenarios.relation_app e w'
    = (w', Ok (Some username))
    ∧ BaseEvent.password MoreScenarios.relation_app e w'
      = (w', Ok (Some password)).
Proof.
  refine (proj1 (zookeeper_event_fields_readable MoreScenarios.relation_app
            MoreScenarios.zookeeper_requirer Scenario.changed_event
            Scenario.w_fresh
            (BaseRequires._diff Scenario.requirer Scenario.changed_event
               Scenario.w_fresh).1
            (mkDiff {[ "username"; "password" ]} ∅ ∅)
            [emission "chroot_created" Scenario.changed_event]
            (emission "chroot_created" Scenario.changed_event)
            _ eq_refl _ _) eq_refl).
  - vm_compute. reflexivity.
  - vm_compute. reflexivity.
  - apply list_elem_of_singleton. reflexivity.
Defined.

(** ** The outcomes of the alias assignment *)

Section MoreAliasProperties.

Lemma find_relation_split (id : Z) (rs : list Relation) (r : Relation) :
  find_relation id rs = Some r →
  ∃ pre post,
    rs = pre ++ r :: post
    ∧ ∀ f, alter_relation id f rs = pre ++ f r :: post.
Proof.
  unfold find_relation. induction rs as [|x rs IH]; [done|].
  cbn [List.find alter_relation].
  destruct (bool_decide (rel_id x = id)).
  - intros [= ->]. by exists [], rs.
  - intros H. destruct (IH H) as (pre & post & -> & Halter).
    exists (x :: pre), post. split; [done|]. intros f. by rewrite Halter.
Qed.

Lemma list_remove_ok (x : string) (l l' : list string) :
  list_remove x l = Ok l' → l ≡ₚ x :: l'.
Proof.
  revert l'. induction l as [|y l IH]; intros l'; [done|].
  cbn [list_remove]. destruct (decide (x = y)) as [->|Hne].
  - by intros [= ->].
  - destruct (list_remove x l) as [l''|]; [|done].
    cbn [mbind result_bind]. intros [= <-].
    rewrite (IH l'' eq_refl). apply Permutation_swap.
Qed.

Lemma list_remove_cases (x : string) (l : list string) :
  (∃ l', list_remove x l = Ok l') ∨ list_remove x l = Raise ValueError.
Proof.
  induction l as [|y l IH]; [by right|].
  cbn [list_remove]. destruct (decide (x = y)); [by eauto|].
  destruct IH as [[l' ->]| ->]; [left; by eexists|by right].
Qed.

(** With every unit databag present, the loop either raises
    [ValueError] or returns what is left of the list. *)
Lemma remove_assigned_cases (lu : string) (rels : list Relation) :
  Forall (λ r, is_Some (rel_data r !! Unit lu)) rels →
  ∀ available,
    (∃ rest, DatabaseRequires.remove_assigned lu rels available = Ok rest)
    ∨ DatabaseRequires.remove_assigned lu rels available = Raise ValueError.
Proof.
  induction rels as [|r rels IH]; intros Hbags available; [left; by eexists|].
  apply Forall_cons in Hbags as [[bag Hb] Hbags].
  cbn [DatabaseRequires.remove_assigned]. rewrite Hb.
  destruct (truthy (bag !! "alias")); [|by apply IH].
  destruct (list_remove_cases (default "" (bag !! "alias")) available)
    as [[l' ->]| ->]; [|by right].
  cbn [mbind result_bind]. by apply IH.
Qed.

Lemma remove_assigned_ok (lu : string) (rels : list Relation) :
  ∀ available rest,
    DatabaseRequires.remove_assigned lu rels available = Ok rest →
    available ≡ₚ assigned_aliases lu rels ++ rest.
Proof.
  unfold assigned_aliases.
  induction rels as [|r rels IH]; intros available rest.
  - by intros [= ->].
  - cbn [DatabaseRequires.remove_assigned omap list_omap].
    destruct (rel_data r !! Unit lu) as [bag|] eqn:Hb; [|done].
    destruct (persisted_alias_truthy lu r bag Hb) as [Ht Hf].
    destruct (truthy (bag !! "alias")).
    + rewrite Ht by done.
      destruct (list_remove _ available) as [l'|] eqn:Hrm; [|done].
      cbn [mbind result_bind]. intros Hrest.
      rewrite (list_remove_ok _ _ _ Hrm), (IH _ _ Hrest). done.
    + rewrite Hf by done. apply IH.
Qed.

Lemma remove_assigned_submseteq (lu : string) (rels : list Relation) :
  Forall (λ r, is_Some (rel_data r !! Unit lu)) rels →
  ∀ available,
    assigned_aliases lu rels ⊆+ available →
    ∃ rest, DatabaseRequires.remove_assigned lu rels available = Ok rest.
Proof.
  unfold assigned_aliases.
  induction rels as [|r rels IH]; intros Hbags available Hsub; [by eexists|].
  apply Forall_cons in Hbags as [[bag Hb] Hbags].
  cbn [DatabaseRequires.remove_assigned omap list_omap] in *. rewrite Hb.
  destruct (persisted_alias_truthy lu r bag Hb) as [Ht Hf].
  destruct (truthy (bag !! "alias")).
  - rewrite Ht in Hsub by done.
    set (a := default "" (bag !! "alias")) in *.
    destruct (list_remove_cases a available) as [[l' Hrm]|Hrm].
    + rewrite Hrm. cbn [mbind result_bind]. apply IH; [done|].
      rewrite (list_remove_ok _ _ _ Hrm) in Hsub.
      by apply (submseteq_app_inv_l _ _ [a]).
    + exfalso. assert (a ∈ available) as Hin.
      { eapply elem_of_submseteq; [|exact Hsub]. by left. }
      destruct (list_remove_spec a available Hin) as (l' & Hok & _).
      congruence.
  - rewrite Hf in Hsub by done. by apply IH.
Qed.

(** What [_assign_relation_alias] leaves alone. *)
Lemma _assign_relation_alias_frame (self : DatabaseRequires.t) (id : Z)
    (w : World) :
  let w' := (DatabaseRequires._assign_relation_alias self id w).1 in
  is_leader w' = is_leader w
  ∧ emitted w' = emitted w
  ∧ defined_events w' = defined_events w.
Proof.
  cbv zeta. rewrite _assign_relation_alias_run.
  repeat match goal with
         | |- context [match ?x with _ => _ end] => destruct x
         end; done.
Qed.

(** X16: for a relation without an alias, with aliases configured and
    every unit databag present, [_assign_relation_alias] raises
    [ValueError] exactly when the persisted aliases are not a
    sub-multiset of the configured list (one is unknown, or persisted
    more often than configured), raises [IndexError] exactly when they
    use the list up, and returns normally exactly when they are a
    sub-multiset and fewer; an exception leaves the model unchanged. *)
Theorem assign_relation_alias_outcomes (self : DatabaseRequires.t) (id : Z)
    (w : World) (r : Relation) (bag : gmap string string) :
  let lu := DatabaseRequires.local_unit self in
  let pool := default [] (DatabaseRequires.relations_aliases self) in
  let assigned := assigned_aliases lu (relations w) in
  let run := DatabaseRequires._assign_relation_alias self id w in
  truthy_list (DatabaseRequires.relations_aliases self) = true →
  find_relation id (relations w) = Some r →
  rel_data r !! Unit lu = Some bag →
  truthy (bag !! "alias") = false →
  Forall (λ r, is_Some (rel_data r !! Unit lu)) (relations w) →
  (run = (w, Raise ValueError) ↔ ¬ assigned ⊆+ pool)
  ∧ (run = (w, Raise IndexError) ↔ assigned ≡ₚ pool)
  ∧ (run.2 = Ok () ↔ assigned ⊆+ pool ∧ (length assigned < length pool)%nat).
Proof.
  intros lu pool assigned run Hcfg Hr Hb Ht Hbags. subst run.
  rewrite _assign_relation_alias_run, Hcfg, Hr. cbn [negb].
  fold lu. rewrite Hb, Ht. fold pool.
  destruct (remove_assigned_cases lu (relations w) Hbags pool)
    as [[rest Hrun]|Hrun]; rewrite Hrun.
  - pose proof (remove_assigned_ok _ _ _ _ Hrun) as Hperm. fold assigned in Hperm.
    assert (Hsub : assigned ⊆+ pool).
    { trans (assigned ++ rest); [by apply submseteq_inserts_r|].
      by apply Permutation_submseteq. }
    pose proof (Permutation_length Hperm) as Hlen. rewrite length_app in Hlen.
    destruct rest as [|first rest]; cbn [list_first snd length] in *.
    + rewrite app_nil_r in Hperm. split; [|split].
      * split; [done|]. intros Hn. by destruct Hn.
      * done.
      * split; [done|]. intros [_ Hlt]. lia.
    + split; [|split].
      * split; [done|]. intros Hn. by destruct Hn.
      * split; [done|]. intros Hp. apply Permutation_length in Hp. lia.
      * split; [|done]. intros _. split; [done|lia].
  - cbn [snd]. split; [|split].
    + split; [|done]. intros _ Hsub.
      destruct (remove_assigned_submseteq lu (relations w) Hbags pool Hsub)
        as [rest Hok]. congruence.
    + split; [done|]. intros Hp.
      destruct (remove_assigned_submseteq lu (relations w) Hbags pool)
        as [rest Hok]; [by apply Permutation_submseteq|]. congruence.
    + split; [done|]. intros [Hsub _].
      destruct (remove_assigned_submseteq lu (relations w) Hbags pool Hsub)
        as [rest Hok]. congruence.
Qed.

(** X17: [_assign_relation_alias] never changes or removes an alias
    that a relation has persisted, whatever relation it is called for
    and whether it returns or raises. *)
Theorem assign_relation_alias_never_reassigns (self : DatabaseRequires.t)
    (id : Z) (w : World) (i : nat) (alias : string) :
  let lu := DatabaseRequires.local_unit self in
  let w' := (DatabaseRequires._assign_relation_alias self id w).1 in
  (persisted_alias lu <$> relations w) !! i = Some (Some alias) →
  (persisted_alias lu <$> relations w') !! i = Some (Some alias).
Proof.
  cbv zeta. rewrite _assign_relation_alias_run.
  destruct (negb _); [done|].
  destruct (find_relation id (relations w)) as [r|] eqn:Hr; [|done].
  destruct (rel_data r !! Unit _) as [bag|] eqn:Hb; [|done].
  destruct (truthy (bag !! "alias")) eqn:Ht; [done|].
  destruct (DatabaseRequires.remove_assigned _ _ _) as [available|]; [|done].
  destruct (list_first available) as [first|]; [|done].
  destruct (find_relation_split _ _ _ Hr) as (pre & post & Hrels & Halter).
  destruct (persisted_alias_truthy _ r bag Hb) as [_ Hnone].
  unfold store_bag, set_relations. cbn [fst relations].
  rewrite Halter, Hrels, !fmap_app, !fmap_cons, (Hnone Ht).
  intros [H|[Hlen H]]%lookup_app_Some.
  - by apply lookup_app_l_Some.
  - rewrite lookup_app_r by done.
    destruct (i - length (persisted_alias _ <$> pre))%nat; [done|exact H].
Qed.

(** X18: with distinct non-empty configured aliases, an assignment
    that returns for a relation without an alias persists a configured
    alias that no relation had; [_get_relation_alias] then returns it,
    and the persisted aliases are again distinct members of the
    configured list. *)
Theorem assign_relation_alias_keeps_aliases_distinct
    (self : DatabaseRequires.t) (id : Z) (w w' : World) (r : Relation)
    (bag : gmap string string) :
  let lu := DatabaseRequires.local_unit self in
  let pool := default [] (DatabaseRequires.relations_aliases self) in
  truthy_list (DatabaseRequires.relations_aliases self) = true →
  NoDup pool →
  "" ∉ pool →
  find_relation id (relations w) = Some r →
  rel_data r !! Unit lu = Some bag →
  truthy (bag !! "alias") = false →
  DatabaseRequires._assign_relation_alias self id w = (w', Ok ()) →
  ∃ alias,
    alias ∈ pool
    ∧ (alias ∉ assigned_aliases lu (relations w))
    ∧ DatabaseRequires._get_relation_alias self id w' = (w', Ok (Some alias))
    ∧ assigned_aliases lu (relations w')
      ≡ₚ alias :: assigned_aliases lu (relations w)
    ∧ NoDup (assigned_aliases lu (relations w'))
    ∧ assigned_aliases lu (relations w') ⊆ pool.
Proof.
  intros lu pool Hcfg Hnd Hempty Hr Hb Ht.
  rewrite _assign_relation_alias_run, Hcfg, Hr. cbn [negb].
  fold lu. rewrite Hb, Ht. fold pool.
  destruct (DatabaseRequires.remove_assigned lu (relations w) pool)
    as [available|] eqn:Hrun; [|done].
  destruct available as [|first rest]; [done|]. cbn [list_first].
  intros [= <-].
  pose proof (remove_assigned_ok _ _ _ _ Hrun) as Hperm.
  assert (Hin : first ∈ pool).
  { apply (proj2 (elem_of_Permutation_proper first _ _ Hperm)).
    set_solver. }
  assert (Hnd' : NoDup (first :: assigned_aliases lu (relations w))).
  { apply (proj1 (NoDup_Permutation_proper _ _ Hperm)) in Hnd.
    apply NoDup_app in Hnd as (Hnd1 & Hdisj & _).
    apply NoDup_cons. split; [|done]. intros Hf.
    apply (Hdisj first Hf). by left. }
  assert (Hperm' :
    assigned_aliases lu
      (relations (store_bag id (Unit lu)
                    (dict_update {[ "alias" := first ]} bag) w))
    ≡ₚ first :: assigned_aliases lu (relations w)).
  { destruct (find_relation_split _ _ _ Hr) as (pre & post & Hrels & Halter).
    destruct (persisted_alias_truthy _ r bag Hb) as [_ Hnone].
    unfold store_bag, set_relations, assigned_aliases. cbn [relations].
    rewrite Halter, Hrels, !omap_app. cbn [omap list_omap].
    rewrite (Hnone Ht).
    assert (persisted_alias lu
              (mkRelation (rel_id r)
                 (<[Unit lu := dict_update {[ "alias" := first ]} bag]>
                    (rel_data r))) = Some first) as ->.
    { unfold persisted_alias. cbn [rel_data]. rewrite lookup_insert_eq.
      assert (dict_update {[ "alias" := first ]} bag !! "alias" = Some first)
        as ->.
      { unfold dict_update. apply lookup_union_Some_l, lookup_singleton_eq. }
      cbn [truthy].
      assert (String.eqb first "" = false) as ->; [|done].
      apply String.eqb_neq. intros ->. done. }
    by rewrite Permutation_middle. }
  exists first. split; [done|]. split; [by apply NoDup_cons in Hnd' as [? _]|].
  split; [|split; [done|split]].
  - rewrite _get_relation_alias_run, find_store_bag, Hr.
    cbn [fmap option_fmap option_map rel_data]. fold lu.
    rewrite lookup_insert_eq. do 3 f_equal.
    unfold dict_update. apply lookup_union_Some_l, lookup_singleton_eq.
  - by rewrite Hperm'.
  - intros x. rewrite Hperm'. intros [->|Hx]%elem_of_cons; [done|].
    apply (proj2 (elem_of_Permutation_proper x _ _ Hperm)). set_solver.
Qed.

Lemma assign_relation_alias_outcomes_witness :
  DatabaseRequires._assign_relation_alias Scenario.database_requirer 3
    MoreScenarios.w_exhausted
  = (MoreScenarios.w_exhausted, Raise IndexError).
Proof.
  apply (proj1 (proj2 (assign_relation_alias_outcomes
                         Scenario.database_requirer 3
                         MoreScenarios.w_exhausted
                         (Scenario.relation_with 3 "third-database" ∅ ∅) ∅
                         eq_refl eq_refl eq_refl eq_refl
                         ltac:(repeat (constructor;
                                 [eexists; vm_compute; reflexivity|]);
                               constructor)))).
  reflexivity.
Defined.

Lemma assign_relation_alias_never_reassigns_witness :
  (persisted_alias "application/0"
     <$> relations
           (DatabaseRequires._assign_relation_alias
              Scenario.database_requirer 2 Scenario.w_second_unassigned).1)
    !! 0%nat
  = Some (Some "cluster1").
Proof.
  apply (assign_relation_alias_never_reassigns Scenario.database_requirer 2
           Scenario.w_second_unassigned 0 "cluster1").
  reflexivity.
Defined.

Lemma assign_relation_alias_keeps_aliases_distinct_witness :
  ∃ alias,
    DatabaseRequires._get_relation_alias Scenario.database_requirer 2
      (DatabaseRequires._assign_relation_alias Scenario.database_requirer 2
         Scenario.w_second_unassigned).1
    = ((DatabaseRequires._assign_relation_alias Scenario.database_requirer 2
          Scenario.w_second_unassigned).1, Ok (Some alias))
    ∧ alias ∉ assigned_aliases "application/0"
                (relations Scenario.w_second_unassigned).
Proof.
  destruct (assign_relation_alias_keeps_aliases_distinct
              Scenario.database_requirer 2 Scenario.w_second_unassigned
              (DatabaseRequires._assign_relation_alias
                 Scenario.database_requirer 2 Scenario.w_second_unassigned).1
              (Scenario.relation_with 2 "another-database" ∅ ∅) ∅)
    as (alias & _ & Hfree & Hget & _).
  - reflexivity.
  - cbn. repeat constructor; set_solver.
  - cbn. set_solver.
  - reflexivity.
  - reflexivity.
  - reflexivity.
  - vm_compute. reflexivity.
  - exists alias. split; [exact Hget|exact Hfree].
Defined.

End MoreAliasProperties.

(** ** The handlers of relation-joined events *)

Section JoinedProperties.

Lemma database_joined_run (self : DatabaseRequires.t)
    (event : RelationEvent) (w : World) :
  DatabaseRequires._on_relation_joined_event self event w
  = match DatabaseRequires._assign_relation_alias self
            (RelationEvent.relation event) w with
    | (w1, Ok _) =>
        BaseRequires._update_relation_data (DatabaseRequires.base self)
          (RelationEvent.relation event)
          (if truthy (BaseRequires.extra_user_roles (DatabaseRequires.base self))
           then {[ "database" := DatabaseRequires.database self;
                   "extra-user-roles" :=
                     default "" (BaseRequires.extra_user_roles
                                   (DatabaseRequires.base self)) ]}
           else {[ "database" := DatabaseRequires.database self ]}) w1
    | (w1, Raise e) => (w1, Raise e)
    end.
Proof.
  unfold DatabaseRequires._on_relation_joined_event.
  unfold mbind at 1. unfold M_bind at 1.
  destruct (DatabaseRequires._assign_relation_alias self _ w) as [w1 [[]|e]];
    [|done].
  by destruct (truthy _).
Qed.

(** X19: the relation-joined handler of [DatabaseRequires] first
    assigns the alias; an exception there ends it; off the leader nothing
    more happens; on the leader [database] is written to the local
    application's databag, and [extra-user-roles] only when the roles
    are a non-empty string, every other key staying as it was. *)
Theorem database_joined_event (self : DatabaseRequires.t)
    (event : RelationEvent) (w : World) :
  let id := RelationEvent.relation event in
  let local_app :=
    Application (BaseRequires.local_app (DatabaseRequires.base self)) in
  let roles := BaseRequires.extra_user_roles (DatabaseRequires.base self) in
  let run := DatabaseRequires._on_relation_joined_event self event w in
  let assigned := DatabaseRequires._assign_relation_alias self id w in
  (∀ e, assigned.2 = Raise e → run = assigned)
  ∧ (assigned.2 = Ok () → is_leader w = false → run = assigned)
  ∧ (assigned.2 = Ok () → is_leader w = true →
     ∀ r bag,
       find_relation id (relations assigned.1) = Some r →
       rel_data r !! local_app = Some bag →
       ∃ bag',
         run = (store_bag id local_app bag' assigned.1, Ok ())
         ∧ bag' !! "database" = Some (DatabaseRequires.database self)
         ∧ bag' !! "extra-user-roles"
           = (if truthy roles then roles else bag !! "extra-user-roles")
         ∧ ∀ k, k ≠ "database" → k ≠ "extra-user-roles" →
                bag' !! k = bag !! k).
Proof.
  cbv zeta. rewrite database_joined_run.
  pose proof (_assign_relation_alias_frame self (RelationEvent.relation event) w)
    as (Hl & _ & _).
  destruct (DatabaseRequires._assign_relation_alias self _ w) as [w1 [[]|e]];
    cbn [fst snd] in *.
  - split; [done|]. split.
    + intros _ Hlead. rewrite <- Hl in Hlead.
      destruct (truthy _); by rewrite _update_relation_data_run, Hlead.
    + intros _ Hlead r bag Hr Hb. rewrite <- Hl in Hlead.
      destruct (BaseRequires.extra_user_roles (DatabaseRequires.base self))
        as [roles|] eqn:Hroles; cbn [truthy from_option id].
      * destruct (negb (String.eqb roles "")) eqn:Hne;
          rewrite _update_relation_data_run, Hlead, relation_data_update_run,
            Hr, Hb; eexists; (split; [reflexivity|]); unfold dict_update.
        -- split; [|split].
           ++ apply lookup_union_Some_l. by rewrite lookup_insert_eq.
           ++ apply lookup_union_Some_l.
              rewrite lookup_insert_ne by done. apply lookup_singleton_eq.
           ++ intros k H1 H2. rewrite lookup_union_r; [done|].
              rewrite lookup_insert_ne by done. by apply lookup_singleton_ne.
        -- split; [|split].
           ++ apply lookup_union_Some_l, lookup_singleton_eq.
           ++ rewrite lookup_union_r; [done|]. by apply lookup_singleton_ne.
           ++ intros k H1 H2. rewrite lookup_union_r; [done|].
              by apply lookup_singleton_ne.
      * rewrite _update_relation_data_run, Hlead, relation_data_update_run,
          Hr, Hb. eexists. split; [reflexivity|]. unfold dict_update.
        split; [|split].
        -- apply lookup_union_Some_l, lookup_singleton_eq.
        -- rewrite lookup_union_r; [done|]. by apply lookup_singleton_ne.
        -- intros k H1 H2. rewrite lookup_union_r; [done|].
           by apply lookup_singleton_ne.
  - split; [by intros ? [= ->]|]. split; done.
Qed.

(** X20: the relation-joined handler of [KafkaRequires] does nothing
    off the leader; on the leader it updates the local application's
    databag with a non-empty [topic] and, when roles were given and are
    not the empty string, with [extra-user-roles]; without roles
    [extra-user-roles] stays as it was, and so does every other key. *)
Theorem kafka_joined_event (self : KafkaRequires.t) (event : RelationEvent)
    (w : World) :
  let id := RelationEvent.relation event in
  let local_app :=
    Application (BaseRequires.local_app (KafkaRequires.base self)) in
  let roles := BaseRequires.extra_user_roles (KafkaRequires.base self) in
  let run := KafkaRequires._on_relation_joined_event self event w in
  (is_leader w = false → run = (w, Ok ()))
  ∧ (is_leader w = true →
     ∀ r bag,
       find_relation id (relations w) = Some r →
       rel_data r !! local_app = Some bag →
       ∃ bag',
         run = (store_bag id local_app bag' w, Ok ())
         ∧ (KafkaRequires.topic self ≠ "" →
            bag' !! "topic" = Some (KafkaRequires.topic self))
         ∧ (∀ given, roles = Some given → given ≠ "" →
            bag' !! "extra-user-roles" = Some given)
         ∧ (roles = None →
            bag' !! "extra-user-roles" = bag !! "extra-user-roles")
         ∧ ∀ k, k ≠ "topic" → k ≠ "extra-user-roles" → bag' !! k = bag !! k).
Proof.
  cbv zeta. unfold KafkaRequires._on_relation_joined_event.
  rewrite _update_relation_data_run. split; intros Hlead; rewrite Hlead; [done|].
  intros r bag Hr Hb. rewrite relation_data_update_run, Hr, Hb.
  eexists. split; [reflexivity|]. unfold dict_update.
  destruct (BaseRequires.extra_user_roles _) as [roles|].
  - split; [|split; [|split]].
    + intros _. apply lookup_union_Some_l. by rewrite lookup_insert_eq.
    + intros given [= <-] _. apply lookup_union_Some_l.
      rewrite lookup_insert_ne by done. apply lookup_singleton_eq.
    + done.
    + intros k H1 H2. rewrite lookup_union_r; [done|].
      rewrite lookup_insert_ne by done. by apply lookup_singleton_ne.
  - split; [|split; [|split]].
    + intros _. apply lookup_union_Some_l, lookup_singleton_eq.
    + done.
    + intros _. rewrite lookup_union_r; [done|]. by apply lookup_singleton_ne.
    + intros k H1 H2. rewrite lookup_union_r; [done|].
      by apply lookup_singleton_ne.
Qed.

End JoinedProperties.

(** ** Construction and the events of the aliases *)

Section MoreConstructionProperties.

Variable isidentifier : string → bool.

Lemma define_alias_events_result (aliases : list string) (w : World) :
  (DatabaseRequires.define_alias_events isidentifier aliases w).2 = Ok ()
  ∨ (DatabaseRequires.define_alias_events isidentifier aliases w).2
    = Raise RuntimeError.
Proof.
  revert w. induction aliases as [|a rest IH]; intros w; [by left|].
  cbn [DatabaseRequires.define_alias_events]. cbv [mbind M_bind].
  repeat (rewrite define_event_run;
          match goal with
          | |- context [negb ?b] => destruct (negb b); [by right|]
          end;
          match goal with
          | |- context [DatabaseRequires.has_event ?w ?n] =>
              destruct (DatabaseRequires.has_event w n); [by right|]
          end).
  apply IH.
Qed.

(** What [__init__] runs when the aliases are as many as the limit. *)
Lemma init_run (charm : Charm) (relation_name database_name : string)
    (extra_user_roles : option string) (pool : list string) (w : World) :
  pool ≠ [] →
  meta_requires charm !! relation_name
  = Some (Some (Z.of_nat (length pool))) →
  DatabaseRequires.__init__ isidentifier charm relation_name database_name
    extra_user_roles (Some pool) w
  = match DatabaseRequires.define_alias_events isidentifier pool w with
    | (w', Ok _) =>
        (w', Ok (DatabaseRequires.mk
                   (BaseRequires.mk (charm_app charm) (charm_unit charm)
                      relation_name extra_user_roles)
                   database_name (Some pool)))
    | (w', Raise e) => (w', Raise e)
    end.
Proof.
  intros Hne Hm. unfold DatabaseRequires.__init__, BaseRequires.__init__.
  cbv [mbind M_bind mret M_ret raise].
  rewrite (has_relation_events_requires _ _ _ Hm), Hm.
  destruct pool as [|a pool]; [done|]. cbn [truthy_list from_option id].
  rewrite bool_decide_eq_false_2 by (intros H; by apply H).
  by destruct (DatabaseRequires.define_alias_events _ _ w) as [w' [[]|e]].
Qed.

(** X21: after a requirer was constructed with aliases, constructing
    another one with the same aliases raises [RuntimeError] at the first
    event and defines nothing: the events of the aliases are attributes
    of the class. *)
Theorem init_twice_raises (charm : Charm)
    (relation_name database_name database_name' : string)
    (extra_user_roles extra_user_roles' : option string)
    (pool : list string) (w w' : World) (self : DatabaseRequires.t) :
  pool ≠ [] →
  DatabaseRequires.__init__ isidentifier charm relation_name database_name
    extra_user_roles (Some pool) w = (w', Ok self) →
  DatabaseRequires.__init__ isidentifier charm relation_name database_name'
    extra_user_roles' (Some pool) w' = (w', Raise RuntimeError).
Proof.
  intros Hne Hinit.
  destruct (init_ok isidentifier _ _ _ _ _ _ _ _ Hne Hinit)
    as (_ & Hm & _ & _ & Hdef & _).
  rewrite (init_run _ _ _ _ _ _ Hne Hm).
  destruct pool as [|a pool]; [done|].
  cbn [DatabaseRequires.define_alias_events]. cbv [mbind M_bind].
  rewrite define_event_run. destruct (negb _); [done|].
  specialize (Hdef a "database_created").
  change ("_" +:+ "database_created") with "_database_created" in Hdef.
  rewrite Hdef; [done|by left|].
  unfold DatabaseRequires.static_events. set_solver.
Qed.

(** X22: the alias [read_only] is refused: with as many aliases as the
    limit, construction raises [RuntimeError], since
    [read_only_endpoints_changed] is already an event of the class. *)
Theorem init_rejects_read_only_alias (charm : Charm)
    (relation_name database_name : string) (extra_user_roles : option string)
    (pool : list string) (w : World) :
  "read_only" ∈ pool →
  meta_requires charm !! relation_name
  = Some (Some (Z.of_nat (length pool))) →
  (DatabaseRequires.__init__ isidentifier charm relation_name database_name
     extra_user_roles (Some pool) w).2 = Raise RuntimeError.
Proof.
  intros Hin Hm.
  rewrite init_run; [|by intros ->; apply elem_of_nil in Hin|done].
  pose proof (define_alias_events_result pool w) as Hres.
  destruct (DatabaseRequires.define_alias_events _ pool w)
    as [w' [[]|e]] eqn:Hrun; cbn [snd] in *.
  - destruct (define_alias_events_ok _ _ _ _ Hrun) as (_ & _ & _ & _ & Hfresh & _).
    by destruct (Hfresh "read_only" Hin) as [_ ?].
  - destruct Hres as [H1|H1]; [discriminate H1|by injection H1 as ->].
Qed.

Lemma spec_classify_static (d : Diff) (kind : string) :
  spec_classify d = Some kind → kind ∈ DatabaseRequires.static_events.
Proof.
  unfold spec_classify, DatabaseRequires.static_events.
  repeat case_bool_decide; intros [= <-]; set_solver.
Qed.

(** X23: for a requirer that was constructed, in a world that still has
    the events defined then, a relation-changed event whose diff is of
    some kind fires that kind and then its variant for the relation's
    alias, a non-empty alias of the configured list, and returns
    normally: the lookup of the alias event does not fail. *)
Theorem constructed_requirer_fires_alias_events (charm : Charm)
    (relation_name database_name : string) (extra_user_roles : option string)
    (pool : list string) (w0 w0' : World) (self : DatabaseRequires.t)
    (event : RelationEvent) (w w1 : World) (d : Diff) (kind : string)
    (r : Relation) (local : gmap string string) (alias : string) :
  pool ≠ [] →
  DatabaseRequires.__init__ isidentifier charm relation_name database_name
    extra_user_roles (Some pool) w0 = (w0', Ok self) →
  defined_events w0' ⊆ defined_events w →
  find_relation (RelationEvent.relation event) (relations w) = Some r →
  rel_data r !! Unit (DatabaseRequires.local_unit self) = Some local →
  local !! "alias" = Some alias →
  alias ∈ pool →
  alias ≠ "" →
  BaseRequires._diff (DatabaseRequires.base self) event w = (w1, Ok d) →
  spec_classify d = Some kind →
  DatabaseRequires._on_relation_changed_event self event w
  = (record_emission (emission (alias +:+ "_" +:+ kind) event)
       (record_emission (emission kind event) w1), Ok ()).
Proof.
  intros Hne Hinit Hsub Hr Hl Ha Hin Hnempty Hd Hk.
  destruct (init_ok isidentifier _ _ _ _ _ _ _ _ Hne Hinit)
    as (_ & _ & _ & _ & Hdef & _).
  specialize (Hdef alias kind Hin (spec_classify_static _ _ Hk)).
  rewrite _on_relation_changed_event_run, Hd, Hk, fire_run. cbv zeta.
  pose proof (_diff_emitted (DatabaseRequires.base self) event w)
    as (_ & Hev & _).
  rewrite Hd in Hev. cbn [fst] in Hev.
  apply _diff_ok_inv in Hd as (r' & local' & text & Hr' & Hl' & ->).
  unfold DatabaseRequires.local_unit in Hl.
  rewrite Hr in Hr'. injection Hr' as <-.
  rewrite Hl in Hl'. injection Hl' as <-.
  rewrite find_store_bag, Hr. cbn [fmap option_fmap option_map rel_data].
  unfold DatabaseRequires.local_unit.
  rewrite lookup_insert_eq, dict_update_data_alias, Ha.
  cbn [truthy from_option id].
  assert (String.eqb alias "" = false) as -> by by apply String.eqb_neq.
  cbn [negb].
  assert (DatabaseRequires.has_event
            (store_bag (RelationEvent.relation event)
               (Unit (BaseRequires.local_unit (DatabaseRequires.base self)))
               (dict_update {[ "data" := text ]} local) w)
            (alias +:+ "_" +:+ kind) = true) as ->; [|done].
  unfold DatabaseRequires.has_event in *. rewrite Hev.
  apply orb_true_iff in Hdef as [Hs|Hdyn]; [by rewrite Hs|].
  apply bool_decide_eq_true in Hdyn. apply orb_true_iff. right.
  apply bool_decide_eq_true. set_solver.
Qed.

End MoreConstructionProperties.

Lemma init_twice_raises_witness :
  DatabaseRequires.__init__ (λ _, true) Scenario.charm "database"
    "another_platform" None (Some ["cluster1"; "cluster2"])
    (DatabaseRequires.__init__ (λ _, true) Scenario.charm "database"
       "data_platform" (Some "CREATEDB,CREATEROLE")
       (Some ["cluster1"; "cluster2"]) (Scenario.world_of [] true)).1
  = ((DatabaseRequires.__init__ (λ _, true) Scenario.charm "database"
        "data_platform" (Some "CREATEDB,CREATEROLE")
        (Some ["cluster1"; "cluster2"]) (Scenario.world_of [] true)).1,
     Raise RuntimeError).
Proof.
  apply (init_twice_raises (λ _, true) Scenario.charm "database"
           "data_platform" "another_platform" (Some "CREATEDB,CREATEROLE")
           None ["cluster1"; "cluster2"] (Scenario.world_of [] true) _
           Scenario.database_requirer).
  - discriminate.
  - vm_compute. reflexivity.
Defined.

Lemma init_rejects_read_only_alias_witness :
  (DatabaseRequires.__init__ (λ _, true) Scenario.charm "database"
     "data_platform" None (Some ["read_only"; "cluster2"])
     (Scenario.world_of [] true)).2
  = Raise RuntimeError.
Proof.
  apply (init_rejects_read_only_alias (λ _, true) Scenario.charm "database"
           "data_platform" None ["read_only"; "cluster2"]
           (Scenario.world_of [] true)).
  - set_solver.
  - reflexivity.
Defined.

Lemma constructed_requirer_fires_alias_events_witness :
  DatabaseRequires._on_relation_changed_event Scenario.database_requirer
    Scenario.changed_event Scenario.w_cluster1
  = (record_emission
       (emission "cluster1_database_created" Scenario.changed_event)
       (record_emission (emission "database_created" Scenario.changed_event)
          (BaseRequires._diff Scenario.requirer Scenario.changed_event
             Scenario.w_cluster1).1), Ok ()).
Proof.
  apply (constructed_requirer_fires_alias_events (λ _, true) Scenario.charm
           "database" "data_platform" (Some "CREATEDB,CREATEROLE")
           ["cluster1"; "cluster2"] (Scenario.world_of [] true)
           (DatabaseRequires.__init__ (λ _, true) Scenario.charm "database"
              "data_platform" (Some "CREATEDB,CREATEROLE")
              (Some ["cluster1"; "cluster2"]) (Scenario.world_of [] true)).1
           Scenario.database_requirer Scenario.changed_event
           Scenario.w_cluster1
           (BaseRequires._diff Scenario.requirer Scenario.changed_event
              Scenario.w_cluster1).1
           (mkDiff {[ "username"; "password"; "endpoints";
                      "read-only-endpoints" ]} ∅ ∅)
           "database_created"
           (Scenario.relation_with 1 "database" MoreScenarios.published
              {[ "alias" := "cluster1" ]})
           {[ "alias" := "cluster1" ]} "cluster1").
  - discriminate.
  - vm_compute. reflexivity.
  - assert (defined_events
              (DatabaseRequires.__init__ (λ _, true) Scenario.charm "database"
                 "data_platform" (Some "CREATEDB,CREATEROLE")
                 (Some ["cluster1"; "cluster2"]) (Scenario.world_of [] true)).1
            = defined_events Scenario.w_cluster1) as ->; [|done].
    vm_compute. reflexivity.
  - reflexivity.
  - reflexivity.
  - reflexivity.
  - set_solver.
  - discriminate.
  - vm_compute. reflexivity.
  - vm_compute. reflexivity.
Defined.
